(** * The trivial evaluation backend (src/neural/backends/network_trivial.cc)

    A shallow embedding of [TrivialNetworkComputation]: the piece-square
    evaluation behind [AddInput], the batch of stored values and the
    accessors of the computation, followed by the properties of the
    specification that were checked against it.

    Conventions.
    - [uint64_t] masks are integers of [Z]; the range [0 <= v < 2^64] is a
      hypothesis wherever a statement needs it.
    - [float] is IEEE-754 binary32 with round-to-nearest-even, taken from the
      executable specification of the standard library ([SpecFloat], with
      24 bits of precision and [emax = 128]).
    - [int] is a 32-bit two's complement integer; conversions to and from
      [size_t] are written out.
    - [std::exp] belongs to the C library, not to this repository: it is a
      parameter [expf] of the evaluation. *)

From Stdlib Require Import ZArith List Bool Lia.
From Stdlib Require Import Floats.SpecFloat.
From Stdlib Require Decimal Number.
Import ListNotations.
Open Scope Z_scope.

(** ** binary32 *)

Definition float32 : Type := spec_float.

Definition prec32 : Z := 24.
Definition emax32 : Z := 128.

Definition f32_add : float32 -> float32 -> float32 := SFadd prec32 emax32.
Definition f32_sub : float32 -> float32 -> float32 := SFsub prec32 emax32.
Definition f32_mul : float32 -> float32 -> float32 := SFmul prec32 emax32.
Definition f32_div : float32 -> float32 -> float32 := SFdiv prec32 emax32.
Definition f32_neg : float32 -> float32 := SFopp.
Definition f32_lt : float32 -> float32 -> bool := SFltb.
Definition f32_le : float32 -> float32 -> bool := SFleb.

(** Conversion of an integer, exact below [2^24]. *)
Definition f32_of_Z (n : Z) : float32 := binary_normalize prec32 emax32 n 0 false.

(** Decimal literals with the [f] suffix: the digits [i.f] denote the
    rational [i f / 10^|f|], rounded once to binary32.  Both operands of the
    division are exact for the literals of the file (at most six digits). *)
Module FloatLit.

Fixpoint pow10 (u : Decimal.uint) : Z :=
  match u with
  | Decimal.Nil => 1
  | Decimal.D0 u | Decimal.D1 u | Decimal.D2 u | Decimal.D3 u | Decimal.D4 u
  | Decimal.D5 u | Decimal.D6 u | Decimal.D7 u | Decimal.D8 u | Decimal.D9 u =>
      10 * pow10 u
  end.

Definition magnitude (i f : Decimal.uint) : float32 :=
  f32_div (f32_of_Z (Z.of_uint (Decimal.app i f))) (f32_of_Z (pow10 f)).

Definition parse (d : Number.number) : option float32 :=
  match d with
  | Number.Decimal (Decimal.Decimal (Decimal.Pos i) f) => Some (magnitude i f)
  | Number.Decimal (Decimal.Decimal (Decimal.Neg i) f) =>
      Some (f32_neg (magnitude i f))
  | _ => None
  end.

Definition print (x : float32) : option Number.number := None.

End FloatLit.

Declare Scope f32_scope.
Delimit Scope f32_scope with f32.
Bind Scope f32_scope with float32.
Number Notation spec_float FloatLit.parse FloatLit.print : f32_scope.
Notation "- x" := (f32_neg x) : f32_scope.
Infix "+" := f32_add : f32_scope.
Infix "-" := f32_sub : f32_scope.
Infix "*" := f32_mul : f32_scope.
Infix "/" := f32_div : f32_scope.

(** ** The constant tables *)

Definition kLogPolicy : list float32 :=
  [ -3.27805; -2.55371; -2.46718; -2.59232; -2.74631; -2.59647; -2.47084;
    -3.65601; -2.09820; -1.43034; -3.51708; -1.26485; -2.36647; -2.94045;
    -2.40305; -2.70842; -2.52492; -2.57050; -2.48690; -2.21723; -2.35995;
    -1.97193; -1.93535; -2.93369; -2.62881; -2.61207; -2.72703; -2.71673;
    -2.52759; -2.49393; -2.22701; -2.63556; -2.12130; -1.82262; -3.50585;
    -2.87152; -1.57311; -2.45245; -2.88140; -2.58226; -2.62983; -2.85953;
    -2.63080; -3.08031; -2.13966; -2.85110; -2.12827; -3.24672; -2.85159;
    -2.67270; -2.98899; -3.06657; -2.71692; -2.68217; -2.30527; -1.55012;
    -2.70463; -2.65240; -1.78385; -2.58179; -1.94060; -2.98342; -1.57773;
    -2.49979; -2.94035; -2.23586; -2.80895; -2.83289; -2.76390; -4.54929;
    -2.25179; -2.14827; -3.16414; -3.54998; -3.06761; -3.11185; -3.34247;
    -3.05679; -2.83999; -2.23640; -2.66808; -3.11225; -2.74733; -1.83896;
    -2.95630; -1.93498; -3.40767; -1.60610; -2.95001; -3.24019; -2.87622;
    -3.88308; -3.14287; -3.82922; -2.98526; -2.76060; -2.11013; -2.55618;
    -3.16483; -2.89776; -3.00680; -3.40576; -2.92824; -1.08351; -2.18712;
    -3.40693; -3.31301; -2.08158; -2.03667; -2.36173; -1.76878; -3.00632;
    -2.05124; -2.29763; -2.66771; -3.03798; -2.47170; -2.67618; -2.86332;
    -3.16487; -2.63969; -2.14089; -2.70953; -2.94945; -2.52531; -2.31311;
    -2.39041; -2.38423; -2.79781; -2.21194; -1.83517; -2.31660; -1.19398;
    -2.70912; -2.19063; -1.67444; -2.92405; -1.89225; -3.19352; -2.53407;
    -2.78346; -2.33611; -2.86697; -4.23423; -2.88961; -2.62569; -1.95808;
    -2.29278; -2.36494; -2.33724; -2.40053; -2.56087; -2.83420; -3.53338;
    -2.18170; -2.13917; -2.04813; -2.66216; -2.12418; -0.69842; -2.65481;
    -3.79830; -2.08032; -2.71945; -2.10865; -2.59930; -2.09607; -2.59304;
    -1.96199; -2.21306; -2.00576; -2.20327; -2.30800; -2.18593; -2.14309;
    -2.43553; -3.97334; -3.46230; -1.39132; -1.53451; -2.93402; -2.16152;
    -1.20217; -3.35988; -2.23190; -2.86953; -2.25928; -2.66984; -2.10801;
    -2.55898; -1.92820; -2.37356; -1.55857; -2.03181; -2.28908; -2.17008;
    -1.79786; -2.11051; -2.25579; -2.25968; -2.21662; -1.93364; -1.75094;
    -1.66550; -2.72936; -1.64063; -1.61075; -2.86833; -1.78174; -2.57420;
    -2.09685; -2.58283; -1.92704; -2.48349; -1.69953; -2.59193; -1.76127;
    -2.01200; -2.94340; -2.38107; -3.08673; -1.99493; -2.33547; -2.10375;
    -2.35984; -2.29878; -1.96549; -1.78870; -1.65615; -2.77078; -2.80018;
    -2.27486; -1.53731; -2.04792; -3.32063; -1.71385; -2.84901; -2.34161;
    -2.99670; -2.23259; -3.02214; -1.93832; -2.77222; -1.81773; -2.68912;
    -3.35246; -2.98197; -2.77642; -2.82059; -2.61695; -2.79896; -2.40170;
    -2.51546; -2.62934; -2.31413; -2.02635; -1.92560; -2.99387; -2.57964;
    -2.24623; -2.52376; -1.91827; -3.34948; -2.56071; -1.65398; -2.16174;
    -3.18252; -2.82216; -3.51838; -2.64710; -3.88911; -2.21975; -3.90789;
    -2.14583; -3.95923; -2.95078; -2.62058; -2.57345; -3.03102; -2.59558;
    -2.61131; -2.31295; -2.28283; -2.43661; -2.33765; -2.13112; -2.71698;
    -2.17856; -2.11073; -2.33474; -2.28725; -3.00949; -2.64762; -1.04994;
    -2.69146; -2.90213; -3.23718; -2.76631; -3.25924; -2.51251; -3.72328;
    -2.33565; -2.08714; -3.21947; -2.85503; -2.63804; -2.84485; -3.52504;
    -2.55603; -2.60966; -2.76627; -2.33495; -2.05168; -2.27313; -2.22733;
    -2.38077; -2.58201; -1.68292; -2.27004; -2.34945; -3.15454; -2.29580;
    -2.00001; -2.28900; -3.42943; -3.26178; -2.78328; -3.65967; -3.76857;
    -2.82601; -2.31787; -2.18220; -2.66768; -2.23966; -2.30392; -2.29266;
    -3.16170; -2.21344; -2.27064; -2.44117; -2.36266; -1.94422; -1.93731;
    -2.12489; -2.01889; -1.51826; -2.97232; -1.76259; -2.73162; -2.50737;
    -2.17278; -3.13102; -2.52260; -2.77223; -2.61413; -2.56946; -2.58251;
    -2.45132; -2.52211; -2.31542; -1.88442; -2.20100; -2.68182; -2.46038;
    -3.37642; -1.84869; -1.97638; -2.04854; -2.16895; -2.11686; -1.75997;
    -2.36928; -1.71232; -2.30947; -2.62440; -2.89605; -3.20371; -1.87585;
    -3.72998; -2.35252; -3.22560; -2.32038; -2.96892; -2.29096; -2.57950;
    -2.06247; -2.79851; -1.75405; -1.94448; -2.01396; -2.33409; -1.49118;
    -1.63272; -1.72012; -1.75873; -1.82517; -1.88277; -1.51172; -1.95535;
    -1.63343; -2.66199; -2.63170; -2.11238; -3.26804; -2.48582; -1.96174;
    -2.38943; -1.84035; -2.43613; -1.79448; -2.44656; -1.70873; -2.23079;
    -3.07955; -2.69291; -2.12766; -2.08189; -2.07082; -2.11996; -2.29495;
    -2.34251; -2.08395; -1.99731; -1.86997; -1.72110; -2.69204; -1.74916;
    -2.03069; -2.18267; -2.32030; -2.60985; -2.09827; -2.55477; -1.83743;
    -2.57651; -1.75630; -2.52175; -3.80455; -2.50695; -3.12213; -2.78579;
    -2.55680; -2.16556; -2.33857; -2.61161; -2.53169; -2.26087; -2.60362;
    -2.39008; -2.21694; -2.07617; -1.99662; -2.42189; -2.87815; -2.15145;
    -2.29009; -3.10180; -2.87811; -2.45276; -3.09524; -2.79113; -3.00962;
    -2.39040; -3.07481; -1.97233; -2.56667; -2.98239; -4.48054; -2.51603;
    -3.68408; -2.80978; -4.02947; -2.30009; -2.18421; -2.31835; -2.93369;
    -2.46494; -2.11828; -2.10616; -2.28425; -2.31544; -2.12953; -2.09662;
    -3.37759; -2.30327; -2.55404; -1.79951; -2.90035; -3.11283; -3.39870;
    -2.44633; -2.98232; -2.80023; -2.48821; -2.88594; -2.01654; -2.82274;
    -2.03482; -2.78492; -3.26634; -3.24195; -2.72334; -2.99127; -3.19865;
    -3.04587; -2.51103; -2.31969; -2.55876; -2.55748; -2.58753; -2.47201;
    -2.15586; -2.12523; -2.40960; -2.37746; -2.45204; -2.89473; -2.60158;
    -2.42614; -2.46064; -2.34556; -3.24733; -2.44070; -2.59262; -2.49762;
    -3.37558; -3.75832; -2.48748; -3.80084; -2.19600; -3.79062; -2.04098;
    -3.40081; -3.18389; -2.68514; -3.22397; -2.92402; -2.90829; -2.52897;
    -2.13440; -2.08583; -2.84989; -2.35185; -2.54278; -2.46315; -2.01244;
    -1.96864; -2.41030; -2.47213; -2.47850; -1.83279; -2.75409; -2.39579;
    -2.91434; -2.95888; -2.45982; -2.54589; -2.72006; -3.42412; -3.10157;
    -2.77292; -3.85904; -3.18310; -2.29223; -2.19258; -2.87856; -3.52170;
    -2.38993; -4.64160; -3.25123; -3.15322; -2.15700; -1.91129; -2.05896;
    -3.87007; -2.31107; -2.38624; -2.48424; -2.48776; -1.92920; -2.00539;
    -2.58454; -2.72011; -2.08597; -2.33988; -2.38105; -3.78748; -2.94846;
    -2.81264; -3.03018; -3.92556; -3.45293; -2.77133; -3.05216; -2.55676;
    -2.84859; -2.82938; -2.03113; -2.42253; -2.85646; -2.17388; -3.81336;
    -2.56566; -1.72219; -1.79065; -2.17955; -2.09137; -2.20016; -2.20045;
    -2.41179; -2.33142; -1.68436; -2.00165; -2.40213; -1.78619; -2.97991;
    -2.03122; -2.81125; -2.70508; -2.75108; -2.93190; -2.82492; -2.93223;
    -2.89579; -2.66369; -3.09179; -1.96086; -2.33415; -2.70489; -2.09119;
    -1.74156; -1.50930; -1.71216; -1.62041; -1.75809; -1.80507; -2.00153;
    -2.09758; -2.10626; -1.47714; -1.75447; -1.44928; -2.73195; -2.70826;
    -2.44281; -2.19051; -2.65505; -2.11028; -2.54282; -1.93472; -2.45693;
    -1.74596; -2.18828; -2.47454; -2.35589; -2.49861; -2.31872; -2.37263;
    -2.17848; -2.16253; -2.49976; -2.37605; -2.41639; -2.31335; -2.25894;
    -2.49608; -2.27300; -2.19441; -1.77622; -2.08721; -2.51806; -2.67657;
    -2.87500; -2.30523; -2.55959; -1.86961; -2.64929; -2.16811; -2.43415;
    -2.77701; -2.21105; -2.18239; -2.38285; -2.10211; -2.01523; -1.90136;
    -1.96068; -1.95664; -1.99073; -2.10522; -2.22135; -2.06296; -2.18416;
    -2.01866; -1.93989; -2.16718; -1.68751; -2.05182; -2.70005; -2.14289;
    -2.19256; -2.50235; -1.96130; -2.59285; -1.86936; -2.70564; -2.43371;
    -2.98850; -2.71071; -3.27384; -2.33446; -2.88198; -2.54575; -3.56300;
    -2.35963; -2.14711; -2.40189; -2.36698; -2.25897; -2.24260; -2.02243;
    -2.33412; -2.38856; -2.52751; -2.29562; -3.00430; -2.42419; -2.58575;
    -1.73016; -2.44198; -3.69007; -3.07589; -2.42086; -2.78920; -3.15726;
    -2.19145; -3.34312; -2.14677; -2.80956; -2.92510; -2.54229; -2.64030;
    -2.71488; -3.23822; -2.48303; -2.98548; -2.42741; -2.76244; -2.19121;
    -2.15651; -2.01607; -2.65838; -2.36130; -2.53446; -2.14098; -2.16233;
    -2.40205; -2.78516; -2.52937; -2.88440; -1.83036; -2.54164; -1.68723;
    -3.03116; -2.99693; -2.60829; -2.41607; -3.37414; -2.98597; -3.04663;
    -2.39045; -2.91719; -2.14359; -2.83079; -2.96203; -2.45407; -2.96953;
    -2.58018; -2.92212; -2.37740; -2.69961; -2.49857; -2.69541; -2.05724;
    -2.00530; -1.99569; -2.69320; -2.15570; -2.45105; -2.28308; -1.95776;
    -2.01425; -2.57625; -2.58345; -2.62041; -1.66176; -2.22696; -2.04774;
    -2.95035; -2.73967; -2.66807; -2.64775; -2.73152; -3.26277; -2.57792;
    -2.34761; -3.10747; -2.71430; -2.19213; -3.38385; -2.18705; -2.92125;
    -2.70237; -2.15332; -2.88140; -3.03359; -2.45556; -2.30681; -1.91017;
    -2.36607; -3.24726; -2.05841; -2.25753; -2.29119; -2.23472; -1.88084;
    -2.05394; -2.36612; -2.49803; -2.19139; -2.28553; -2.56190; -2.83538;
    -3.06285; -2.97343; -2.69375; -3.27634; -3.95293; -3.38088; -2.66496;
    -3.65575; -2.03979; -2.48842; -1.95172; -2.38707; -2.00054; -2.07675;
    -2.65607; -1.79267; -1.73012; -1.78330; -1.99767; -1.89127; -2.07869;
    -2.11741; -2.21555; -2.20841; -1.72231; -1.86764; -2.05040; -1.61327;
    -2.07715; -1.72813; -2.77681; -2.37597; -2.60204; -2.52153; -2.52887;
    -2.56209; -2.45590; -2.00872; -2.15372; -2.04436; -2.10929; -2.16001;
    -2.18408; -1.82629; -1.59137; -1.79041; -1.74602; -1.95427; -1.93570;
    -2.06620; -2.30465; -2.22643; -1.74341; -2.34048; -1.47648; -2.00384;
    -2.61990; -2.79520; -2.33649; -2.32341; -2.28627; -2.44100; -1.89457;
    -2.04758; -2.09793; -2.17350; -2.03410; -2.20825; -2.02451; -2.03058;
    -1.95847; -1.89330; -1.97147; -2.03824; -2.17988; -2.34249; -2.15968;
    -2.23169; -2.19646; -2.08405; -1.77245; -1.60113; -2.11544; -1.84474;
    -2.43358; -2.35725; -1.90083; -2.44999; -2.10366; -2.83689; -2.19778;
    -2.35656; -3.09341; -2.25288; -2.18496; -2.49246; -2.48306; -2.10760;
    -2.43646; -2.28027; -2.05602; -2.09228; -2.31467; -2.35102; -2.36965;
    -2.28385; -2.23430; -2.80955; -2.01406; -2.05944; -2.66423; -3.36453;
    -1.96616; -2.97724; -2.56376; -1.98829; -2.87213; -2.25546; -2.23133;
    -2.34622; -2.06627; -2.45802; -2.81215; -2.35850; -2.36959; -2.10324;
    -3.05414; -2.08282; -2.12720; -1.84930; -2.49966; -2.12045; -2.09591;
    -2.12239; -2.34968; -2.50831; -2.44692; -2.36269; -2.98886; -1.93362;
    -2.09213; -1.91741; -2.79879; -2.67868; -2.87130; -2.05039; -2.80665;
    -2.62980; -2.20870; -2.70801; -2.29572; -2.79538; -2.59612; -2.37224;
    -2.40995; -2.43122; -2.66385; -2.36472; -2.38147; -2.33425; -3.11712;
    -2.10967; -2.03662; -2.03923; -2.63280; -2.25739; -2.22740; -2.07232;
    -2.02925; -2.49691; -2.61640; -2.45189; -3.06772; -2.01314; -2.09911;
    -2.10208; -2.60957; -2.65398; -3.01437; -2.23397; -2.79582; -2.93628;
    -2.76973; -2.25740; -2.77257; -2.69414; -2.22957; -2.51010; -2.35899;
    -2.71161; -2.36220; -2.59277; -2.30781; -2.76481; -2.40330; -2.95625;
    -1.98644; -2.05878; -2.09858; -3.31837; -2.09829; -2.32696; -2.26766;
    -1.99927; -2.11274; -2.48006; -2.56481; -2.72063; -2.04023; -2.19388;
    -1.94067; -3.56758; -2.81211; -2.85422; -2.23250; -3.82901; -2.88714;
    -2.95403; -2.30589; -2.81081; -2.50157; -2.01331; -2.31846; -2.08757;
    -2.24877; -2.20436; -2.19524; -2.44630; -2.53404; -2.41221; -1.78045;
    -1.86100; -1.95456; -2.91479; -1.90417; -2.04239; -2.17665; -2.14768;
    -1.80827; -1.87976; -2.09031; -2.42031; -1.81085; -1.79782; -1.86047;
    -2.76310; -2.57748; -2.66853; -2.33193; -3.13747; -2.80059; -2.46372;
    -2.06273; -3.13628; -1.86735; -2.68757; -2.06358; -2.42925; -2.06488;
    -2.17551; -2.91779; -2.19911; -2.16090; -1.85600; -2.09475; -1.81766;
    -1.90589; -2.00586; -2.22196; -2.14874; -1.72591; -1.71773; -2.65898;
    -1.85318; -1.77443; -2.45163; -2.54152; -3.17261; -2.24711; -3.59329;
    -2.71727; -2.04273; -2.44538; -1.96606; -2.19677; -2.10418; -2.19514;
    -1.91936; -2.34775; -1.77923; -1.95359; -1.94258; -1.77794; -1.87704;
    -1.99098; -2.17642; -2.29225; -2.37089; -1.87244; -2.12701; -1.75107;
    -1.67364; -2.81174; -2.69765; -2.23031; -2.44985; -2.00851; -2.11672;
    -2.03517; -2.14776; -1.96397; -2.28422; -1.96835; -2.19551; -1.42431;
    -2.16588; -1.91686; -1.82988; -1.40790; -2.10013; -2.27586; -2.36663;
    -2.47849; -2.38244; -2.31331; -1.97177; -1.54729; -1.92420; -1.74783;
    -2.03165; -2.27844; -2.52088; -2.14359; -2.03773; -2.19033; -1.97465;
    -2.29625; -1.98357; -2.30993; -2.22969; -1.83153; -2.06495; -1.95874;
    -1.94909; -1.85345; -2.04891; -1.95348; -2.03582; -2.27380; -2.58700;
    -2.39653; -2.33205; -2.09450; -2.16998; -1.61820; -1.95539; -2.26379;
    -3.03213; -2.07728; -2.51776; -2.47519; -2.29791; -2.34987; -2.24506;
    -2.10877; -2.35250; -2.04200; -2.34712; -2.54766; -2.33497; -2.03394;
    -2.21075; -2.75461; -1.96144; -2.07166; -1.89114; -2.23968; -2.04990;
    -2.05186; -2.11099; -2.53494; -2.53646; -2.40433; -2.15578; -2.96947;
    -2.03372; -1.74629; -2.09146; -2.44340; -2.63727; -3.22198; -2.24365;
    -2.80178; -2.54007; -2.27926; -2.29653; -2.42813; -2.36442; -2.41354;
    -2.23481; -2.37359; -2.35228; -2.30055; -2.27875; -2.29771; -2.71068;
    -1.91342; -2.06465; -1.89668; -2.51739; -2.12320; -2.14759; -2.01413;
    -2.15683; -2.53451; -2.55102; -2.19632; -2.72338; -2.03579; -1.81866;
    -2.08212; -2.96693; -2.76705; -2.86854; -2.27029; -2.85617; -2.81300;
    -2.09222; -2.28959; -2.10792; -2.19547; -2.19424; -2.24168; -2.13982;
    -2.07873; -2.19986; -2.01142; -2.34383; -2.17709; -1.74786; -1.86743;
    -1.78310; -2.36384; -1.96474; -2.15577; -2.20774; -1.83719; -1.91188;
    -2.25855; -2.15191; -2.42236; -1.97486; -1.68240; -1.84782; -2.60395;
    -2.46040; -2.64373; -2.16081; -2.56212; -2.65208; -2.39016; -1.96899;
    -2.37672; -1.98351; -2.11495; -2.16868; -2.13437; -1.98334; -2.19722;
    -2.22096; -2.40551; -2.06782; -1.76509; -1.87992; -1.82811; -2.27810;
    -1.97049; -2.12135; -2.23576; -2.21375; -1.87601; -1.84173; -1.99004;
    -2.26579; -1.92204; -1.53696; -1.94886; -2.44900; -2.42089; -2.35997;
    -2.14107; -2.86418; -2.62388; -2.29501; -1.82484; -2.15865; -1.95074;
    -2.07764; -2.09247; -2.14312; -1.78663; -2.28377; -2.24162; -1.87493;
    -1.73979; -1.76333; -1.81149; -1.85047; -1.96739; -2.04565; -2.17483;
    -2.11464; -1.74922; -1.71497; -2.12079; -1.84692; -1.47210; -2.05774;
    -2.39308; -2.39104; -2.02159; -2.80460; -2.61564; -1.90047; -2.33373;
    -2.00211; -2.09685; -2.16511; -2.26695; -1.58998; -2.13473; -1.70681;
    -1.85100; -1.77046; -1.68764; -1.81053; -1.92529; -2.04866; -2.17788;
    -2.15314; -1.87239; -1.95897; -2.00624; -1.45804; -2.81546; -2.43162;
    -2.00752; -2.21081; -1.69523; -2.27725; -1.66769; -2.35110; -1.66064;
    -2.28703; -1.80589; -2.22687; -1.33695; -2.02242; -1.90671; -1.77027;
    -1.59172; -2.10972; -2.31081; -2.43459; -2.47780; -2.53299; -2.40122;
    -2.10230; -2.04187; -1.85619; -1.97726; -2.29052; -2.21670; -2.38972;
    -1.89230; -2.39340; -1.84567; -2.54204; -2.07184; -1.91261; -2.36088;
    -1.44757; -2.22705; -1.93230; -2.04882; -1.85666; -1.72142; -2.04852;
    -2.18148; -2.47233; -2.57103; -2.66228; -2.36146; -2.10443; -2.17253;
    -2.14498; -2.13797; -2.20457; -2.37645; -2.42756; -2.22670; -2.44680;
    -2.06698; -2.49345; -2.06786; -2.23341; -1.95126; -2.39432; -1.68125;
    -2.15135; -2.40909; -1.85258; -2.04602; -1.86844; -2.05475; -2.06725;
    -2.01961; -2.19149; -2.48149; -2.65855; -2.45480; -2.19928; -2.50001;
    -2.09398; -2.13474; -2.05691; -2.40477; -2.35070; -2.38167; -2.37739;
    -2.11717; -2.05558; -2.42946; -2.07644; -2.05003; -1.76712; -2.37327;
    -1.71331; -2.13889; -2.12451; -1.72115; -1.99994; -1.78942; -2.02653;
    -2.01901; -2.08600; -2.01737; -2.15539; -2.50478; -2.43162; -2.14439;
    -2.68323; -1.82002; -2.02668; -1.80627; -2.23072; -2.21415; -2.24463;
    -2.15904; -2.24000; -2.15755; -2.37529; -2.03020; -2.18104; -1.83134;
    -2.28310; -1.80883; -2.13150; -1.90072; -1.74498; -1.93361; -1.76177;
    -2.26838; -2.01060; -2.07943; -2.16495; -1.98597; -2.04789; -2.32455;
    -2.22731; -2.35536; -1.86481; -1.95994; -1.94230; -2.89104; -1.96322;
    -2.08665; -2.06367; -2.05313; -2.15806; -1.96075; -2.20531; -2.07987;
    -1.55964; -2.29668; -1.76706; -2.08963; -1.79572; -1.70844; -1.77588;
    -1.68404; -2.03263; -1.90899; -2.07456; -2.22453; -2.23994; -1.87902;
    -1.84461; -2.06319; -2.12513; -1.90459; -1.87878; -2.01137; -2.64095;
    -1.95214; -1.95016; -1.92596; -2.03448; -1.81453; -2.15834; -1.80823;
    -2.28257; -1.95188; -1.40515; -2.21123; -1.68100; -1.78388; -1.56169;
    -1.68899; -1.58597; -1.82104; -1.98177; -2.11101; -2.21825; -2.16944;
    -1.79568; -1.70052; -2.12545; -1.76546; -1.88302; -1.88185; -1.81223;
    -1.97519; -1.80843; -2.01822; -1.72436; -2.16737; -1.79040; -2.17144;
    -1.97642; -1.08338; -2.09722; -1.55166; -1.58894; -1.67195; -1.79258;
    -1.91590; -2.07872; -2.17675; -2.22306; -2.34160; -1.85982; -1.92394;
    -1.67892; -1.81541; -1.97390; -1.62706; -2.00251; -1.44317; -2.06995;
    -1.47269; -2.00043; -1.57277; -1.98441; -1.65323; -1.94968; -1.32563;
    -1.76913; -1.54770; -1.45107; -1.55195; -1.94615; -2.22312; -2.17876;
    -2.18266; -2.22343; -2.20101; -2.17880; -1.82719; -1.91612; -1.71975;
    -2.01348; -1.67986; -2.00790; -1.66986; -2.02330; -1.73576; -1.26400;
    -1.92733; -1.09162; -1.92195; -1.52879; -1.53502; -1.49707; -1.27697;
    -1.89492; -1.85442; -2.12911; -2.16070; -2.14918; -2.17024; -2.14222;
    -1.98419; -1.95113; -2.03801; -1.68961; -2.05959; -1.87573; -2.10187;
    -1.75431; -1.99309; -1.43739; -2.07272; -1.32327; -2.06925; -1.72851;
    -1.46024; -1.58201; -1.53596; -1.51227; -2.09855; -1.84421; -1.86674;
    -2.12931; -2.21361; -2.19483; -2.15773; -2.01178; -2.02010; -2.02189;
    -2.00588; -1.78924; -1.92400; -2.19067; -1.89411; -1.97522; -1.36829;
    -2.15518; -1.42762; -2.11017; -1.71658; -1.56530; -1.66244; -1.64796;
    -1.65544; -2.08416; -2.15704; -1.86680; -1.85526; -2.18876; -2.25134;
    -2.19230; -1.91536; -1.92085; -1.93780; -1.89535; -1.95840; -1.81512;
    -2.05763; -1.73630; -1.93331; -1.37147; -2.23705; -1.34394; -1.88755;
    -1.63986; -1.61512; -1.73315; -1.64673; -1.87312; -2.06245; -2.13445;
    -2.11927; -1.79248; -1.81999; -2.19646; -2.14435; -1.60343; -1.66710;
    -1.72212; -1.75136; -1.70293; -1.82036; -1.65613; -1.91504; -1.79989;
    -1.34902; -2.02918; -1.33355; -1.85791; -1.47304; -1.39559; -1.51913;
    -1.52185; -1.86153; -1.90207; -1.93224; -1.95073; -1.90642; -1.60040;
    -1.60577; -1.98155; -1.60383; -1.71976; -1.72190; -1.69195; -1.80138;
    -1.56773; -1.93684; -1.55984; -1.98119; -1.75877; -1.03839; -1.99725;
    -1.13111; -1.28862; -1.39230; -1.59500; -1.42287; -1.83753; -1.92297;
    -1.94480; -1.87559; -1.89891; -1.51436; -1.51757; -1.61669; -1.77426;
    -1.58805; -1.80870; -1.50397; -1.82487; -1.47130; -1.86784; -1.50498;
    -1.93723; -1.76847; -1.10059; -2.00065; -1.24889; -1.42306; -1.55937;
    -1.85574; -1.93160; -1.96405; -1.91510; -1.99475; -2.03417; -1.63940;
    -1.46124; -2.51354; -3.05328; -0.23796; -1.09853; -1.69816; -0.88060;
    -2.59322; -2.72630; -1.39634; -2.47534; -2.93509; -0.40550; -1.30283;
    -2.31982; -0.32459; -1.27121; -2.06339; -1.59923; -2.71933; -3.21009;
    -0.09426; -1.33884; -1.94104; -0.13521; -1.30427; -2.12129; -1.50089;
    -2.55270; -2.85786; -0.05611; -0.82796; -2.33907; -0.21596; -1.13357;
    -1.38835; -1.29421; -2.32614; -2.77775; -0.70767; -1.27214; -2.37027;
    -0.26273; -0.95609; -1.41015; -1.10089; -2.11966; -2.40177; -0.35224;
    -1.20165; -1.40952; -0.0; -0.65666; -1.98171; -1.05692; -2.01931;
    -2.43228; -0.0; -2.29416; -3.49818; -0.46989; -1.00615; -1.49424;
    -1.23419; -2.09375; -2.43350
  ]%f32.

Definition kPawns : list float32 :=
  [ -0.00000; -0.00000; -0.00000; -0.00000; 0.00000; -0.00000; 0.00000;
    -0.00000; 0.06662; 0.09583; 0.06643; 0.05536; 0.02236; 0.04939; 0.09071;
    0.09352; 0.08847; 0.08068; 0.07738; 0.05534; 0.06063; 0.06393; 0.08791;
    0.09560; 0.07608; 0.08692; 0.06337; 0.07179; 0.07750; 0.07100; 0.08159;
    0.08283; 0.14966; 0.09968; 0.10335; 0.10362; 0.08502; 0.11313; 0.08158;
    0.10561; 0.13946; 0.12644; 0.12511; 0.11497; 0.13403; 0.09999; 0.12569;
    0.14075; 0.16155; 0.12969; 0.16869; 0.17744; 0.17258; 0.19959; 0.14792;
    0.15976; 0.00000; -0.00000; 0.00000; 0.00000; -0.00000; -0.00000;
    -0.00000; -0.00000
  ]%f32.

Definition kKnights : list float32 :=
  [ 0.12549; 0.05358; 0.06001; 0.08798; 0.09084; 0.07007; 0.05983; 0.07110;
    0.03532; 0.08703; 0.13308; 0.07691; 0.11283; 0.06292; 0.08848; 0.05982;
    0.07493; 0.10743; 0.10747; 0.12312; 0.11972; 0.10002; 0.07905; 0.06539;
    0.12239; 0.14532; 0.08843; 0.12103; 0.10833; 0.13367; 0.09003; 0.07247;
    0.12163; 0.16514; 0.15197; 0.11901; 0.14494; 0.13974; 0.12081; 0.10957;
    0.10746; 0.11014; 0.15582; 0.22478; 0.15931; 0.15341; 0.11198; 0.07076;
    0.16764; 0.14658; 0.20785; 0.12558; 0.10667; 0.19004; 0.07353; 0.14162;
    0.03220; 0.06356; 0.13316; 0.12845; 0.14233; 0.19931; 0.07425; 0.20774
  ]%f32.

Definition kBishops : list float32 :=
  [ 0.08299; 0.11050; 0.11387; 0.12347; 0.13993; 0.10414; 0.18594; 0.06085;
    0.10235; 0.15733; 0.13970; 0.13631; 0.10189; 0.17399; 0.14002; 0.10948;
    0.14439; 0.13286; 0.15316; 0.13379; 0.13762; 0.13907; 0.11989; 0.12127;
    0.15578; 0.13964; 0.16643; 0.14614; 0.12861; 0.15553; 0.16397; 0.09271;
    0.18553; 0.14091; 0.18698; 0.15018; 0.15590; 0.12655; 0.14573; 0.10276;
    0.19904; 0.15973; 0.13077; 0.14071; 0.15390; 0.11180; 0.10273; 0.19621;
    0.14963; 0.14949; 0.12911; 0.11972; 0.17507; 0.14455; 0.10058; 0.11797;
    0.15988; 0.14084; 0.15436; 0.24262; 0.12838; 0.15251; 0.10853; 0.14240
  ]%f32.

Definition kRooks : list float32 :=
  [ 0.19343; 0.22010; 0.19814; 0.20439; 0.20660; 0.20584; 0.19275; 0.20042;
    0.18159; 0.19006; 0.19286; 0.19677; 0.22751; 0.22487; 0.19256; 0.16757;
    0.19102; 0.23716; 0.21167; 0.19747; 0.23355; 0.21321; 0.17478; 0.17279;
    0.15728; 0.16795; 0.26422; 0.22453; 0.24422; 0.21715; 0.19039; 0.24305;
    0.18434; 0.25995; 0.25855; 0.24373; 0.25450; 0.23517; 0.20909; 0.22781;
    0.19181; 0.26571; 0.26481; 0.21262; 0.25547; 0.22559; 0.22430; 0.23066;
    0.28646; 0.25282; 0.25758; 0.21276; 0.25720; 0.26076; 0.25661; 0.24443;
    0.23237; 0.21318; 0.23230; 0.19967; 0.21947; 0.22544; 0.23956; 0.21579
  ]%f32.

Definition kQueens : list float32 :=
  [ 0.23063; 0.23157; 0.25371; 0.27579; 0.27878; 0.23600; 0.29552; 0.29963;
    0.27729; 0.29837; 0.29026; 0.25105; 0.27772; 0.28502; 0.29344; 0.24009;
    0.29366; 0.28859; 0.27538; 0.27713; 0.26159; 0.28383; 0.28749; 0.24996;
    0.35152; 0.26595; 0.26428; 0.30264; 0.29376; 0.29841; 0.27352; 0.29242;
    0.30948; 0.30742; 0.30822; 0.31232; 0.31701; 0.28862; 0.28218; 0.29562;
    0.30423; 0.33840; 0.29070; 0.29734; 0.25349; 0.27276; 0.24977; 0.27319;
    0.27835; 0.35061; 0.33633; 0.29402; 0.32144; 0.33461; 0.29777; 0.28501;
    0.31223; 0.33044; 0.33788; 0.26788; 0.29851; 0.28789; 0.31030; 0.28824
  ]%f32.

Definition kKings : list float32 :=
  [ 0.02852; 0.00453; -0.05309; -0.02416; -0.14581; -0.01472; -0.02206;
    0.02207; 0.03712; 0.02324; -0.02501; -0.06653; -0.07605; -0.01135;
    0.03666; -0.02999; 0.00700; -0.02668; -0.06998; -0.02305; -0.03816;
    -0.00129; -0.08264; 0.01139; -0.08866; -0.01720; -0.03161; -0.03092;
    -0.01507; 0.00172; -0.03457; 0.02657; -0.00569; 0.00000; 0.00341;
    -0.00108; -0.01445; -0.02948; -0.00883; 0.00954; 0.01116; -0.01762;
    0.01088; -0.00005; -0.00275; 0.00038; 0.00219; 0.01970; 0.00000; -0.00024;
    -0.01798; -0.00339; -0.00226; 0.00842; 0.03543; -0.00122; -0.00000;
    0.00532; -0.00000; 0.00002; 0.00138; 0.00571; -0.00078; 0.00145
  ]%f32.

Definition kKingsEndgame : list float32 :=
  [ -0.03908; -0.02837; -0.02194; -0.03649; -0.04754; -0.03390; -0.03172;
    0.02852; -0.02071; -0.01429; -0.02296; -0.01087; -0.02774; -0.01505;
    -0.00469; -0.03894; -0.03979; 0.02244; -0.00705; -0.01847; -0.00316;
    -0.04952; 0.01103; -0.00487; 0.01769; 0.01299; 0.03068; -0.01422;
    -0.00579; -0.01817; 0.01946; -0.01716; 0.04860; 0.01099; 0.05517; 0.06880;
    0.00036; 0.03165; 0.07524; -0.00409; 0.01840; 0.04146; 0.04435; 0.09172;
    0.08918; 0.03642; 0.04095; 0.00081; 0.07254; 0.03901; 0.07186; 0.06869;
    0.05215; 0.00621; 0.02240; -0.00463; -0.01242; -0.02068; 0.01925; 0.03103;
    0.02797; -0.02299; -0.01944; -0.04503
  ]%f32.

(** ** Bit planes *)

(** The squares of the board, in ascending order. *)
Definition squares : list Z := map Z.of_nat (seq 0 64).

Definition is_uint64 (v : Z) : Prop := 0 <= v < 2 ^ 64.

(** Modelled from the spec: [IterateBits] and its [BitIterator<int>] live in
    utils/bititer.h, which is not among the sources.  Section 4.1 gives the
    contract: the indices (0-63) of the set bits of the mask, in ascending
    order, each exactly once. *)
Definition IterateBits (value : Z) : list Z :=
  filter (Z.testbit value) squares.

(** Byte [i] of a value, byte 0 being the least significant. *)
Definition byte_of (v i : Z) : Z := Z.land (Z.shiftr v (8 * i)) 255.

(** Modelled from the spec: [ReverseBytesInBytes] is declared in a header
    that is not among the sources.  Section 4.3: the byte order of the
    64-bit value is reversed, each byte being one rank of eight squares. *)
Definition ReverseBytesInBytes (v : Z) : Z :=
  Z.lor (Z.shiftl (byte_of v 0) 56)
 (Z.lor (Z.shiftl (byte_of v 1) 48)
 (Z.lor (Z.shiftl (byte_of v 2) 40)
 (Z.lor (Z.shiftl (byte_of v 3) 32)
 (Z.lor (Z.shiftl (byte_of v 4) 24)
 (Z.lor (Z.shiftl (byte_of v 5) 16)
 (Z.lor (Z.shiftl (byte_of v 6) 8)
        (byte_of v 7))))))).

(** ** Integer conversions *)

(** [size_t] to [int]: the value is reduced modulo [2^32] into
    [-2^31 .. 2^31 - 1]. *)
Definition int_of_size_t (n : Z) : Z := (n + 2 ^ 31) mod 2 ^ 32 - 2 ^ 31.

(** [int] to [size_t]: the value is reduced modulo [2^64]. *)
Definition size_t_of_int (i : Z) : Z := i mod 2 ^ 64.

(** ** Outcomes of a call

    [operator[]] of [std::vector] and [std::array] performs no bounds check:
    outside the container the call has no defined behaviour.  [Aborts] stands
    for a checked failure (an assertion, or the exception of [at]). *)
Inductive outcome (A : Type) : Type :=
| Returns (a : A)
| Undefined
| Aborts.
Arguments Returns {A} a.
Arguments Undefined {A}.
Arguments Aborts {A}.

Definition bind {A B : Type} (x : outcome A) (k : A -> outcome B) : outcome B :=
  match x with
  | Returns a => k a
  | Undefined => Undefined
  | Aborts => Aborts
  end.

Notation "x <- e ;; k" := (bind e (fun x => k))
  (at level 61, e at next level, right associativity).

(** [v[i]] for a container indexed by [size_t]. *)
Definition subscript {A : Type} (v : list A) (i : Z) : outcome A :=
  if (0 <=? i) && (i <? Z.of_nat (length v)) then
    match nth_error v (Z.to_nat i) with
    | Some a => Returns a
    | None => Undefined
    end
  else Undefined.

(** ** The computation *)

Record InputPlane : Type := { mask : Z; value : float32 }.

#[warnings="-notation-for-abbreviation"]
Notation InputPlanes := (list InputPlane).

Record TrivialNetworkComputation : Type := { q_ : list float32 }.

(** [NewComputation]: a computation starts with an empty batch. *)
Definition NewComputation : TrivialNetworkComputation := {| q_ := [] |}.

Definition push_back (self : TrivialNetworkComputation) (v : float32)
  : TrivialNetworkComputation :=
  {| q_ := q_ self ++ [v] |}.

Definition DotProduct (plane : Z) (weights : list float32) : float32 :=
  fold_left
    (fun result idx => (result + nth (Z.to_nat idx) weights S754_nan)%f32)
    (IterateBits plane) (0.0)%f32.

Definition NumBits (x : Z) : Z := Z.of_nat (length (IterateBits x)).

Section Computation.

(** [std::exp] on [float]. *)
Variable expf : float32 -> float32.

Definition AddInput (input : InputPlanes) (self : TrivialNetworkComputation)
  : outcome TrivialNetworkComputation :=
  let q := (0.0)%f32 in
  i0 <- subscript input 0 ;;
  let q := (q + DotProduct (mask i0) kPawns)%f32 in
  i6 <- subscript input 6 ;;
  let q := (q - DotProduct (ReverseBytesInBytes (mask i6)) kPawns)%f32 in
  i1 <- subscript input 1 ;;
  let q := (q + DotProduct (mask i1) kKnights)%f32 in
  i7 <- subscript input 7 ;;
  let q := (q - DotProduct (ReverseBytesInBytes (mask i7)) kKnights)%f32 in
  i2 <- subscript input 2 ;;
  let q := (q + DotProduct (mask i2) kBishops)%f32 in
  i8 <- subscript input 8 ;;
  let q := (q - DotProduct (ReverseBytesInBytes (mask i8)) kBishops)%f32 in
  i3 <- subscript input 3 ;;
  let q := (q + DotProduct (mask i3) kRooks)%f32 in
  i9 <- subscript input 9 ;;
  let q := (q - DotProduct (ReverseBytesInBytes (mask i9)) kRooks)%f32 in
  i4 <- subscript input 4 ;;
  let q := (q + DotProduct (mask i4) kQueens)%f32 in
  i10 <- subscript input 10 ;;
  let q := (q - DotProduct (ReverseBytesInBytes (mask i10)) kQueens)%f32 in
  let endgame :=
    ((mask i4 =? 0) ||
     ((mask i3 =? 0) && (NumBits (Z.lor (mask i1) (mask i2)) <=? 1))) &&
    ((mask i10 =? 0) ||
     ((mask i9 =? 0) && (NumBits (Z.lor (mask i7) (mask i8)) <=? 1))) in
  q <- (if endgame then
          i5 <- subscript input 5 ;;
          let q := (q + DotProduct (mask i5) kKingsEndgame)%f32 in
          i11 <- subscript input 11 ;;
          Returns (q - DotProduct (ReverseBytesInBytes (mask i11)) kKingsEndgame)%f32
        else
          i5 <- subscript input 5 ;;
          let q := (q + DotProduct (mask i5) kKings)%f32 in
          i11 <- subscript input 11 ;;
          Returns (q - DotProduct (ReverseBytesInBytes (mask i11)) kKings)%f32) ;;
  Returns (push_back self (2.0 / (1.0 + expf (q * -10.0)) - 1.0)%f32).

Definition ComputeBlocking (self : TrivialNetworkComputation)
  : TrivialNetworkComputation := self.

Definition GetBatchSize (self : TrivialNetworkComputation) : Z :=
  int_of_size_t (Z.of_nat (length (q_ self))).

Definition GetQVal (self : TrivialNetworkComputation) (sample : Z)
  : outcome float32 :=
  subscript (q_ self) (size_t_of_int sample).

Definition GetDVal (self : TrivialNetworkComputation) (sample : Z) : float32 :=
  (0.0)%f32.

Definition GetMVal (self : TrivialNetworkComputation) (sample : Z) : float32 :=
  (0.0)%f32.

Definition GetPVal (self : TrivialNetworkComputation) (sample move_id : Z)
  : outcome float32 :=
  subscript kLogPolicy (size_t_of_int move_id).

End Computation.

(** ** The specification's vocabulary *)

(** The plane at position [k] of an input that has one. *)
Definition no_plane : InputPlane := {| mask := 0; value := S754_nan |}.

Definition plane_mask (input : InputPlanes) (k : nat) : Z :=
  mask (nth k input no_plane).

(** The measure of the endgame test as the code takes it: the squares that
    are set in one plane or the other, a square set in both planes counted
    once.  It is [NumBits (a | b)]; section 4.4 words the measure as
    [bits_total] below. *)
Definition bits_across (a b : Z) : Z :=
  Z.of_nat (length (filter (fun sq => Z.testbit a sq || Z.testbit b sq) squares)).

Definition side_qualifies (knight bishop rook queen : Z) : Prop :=
  queen = 0 \/ (rook = 0 /\ bits_across knight bishop <= 1).

Definition is_endgame (pl : nat -> Z) : Prop :=
  side_qualifies (pl 1%nat) (pl 2%nat) (pl 3%nat) (pl 4%nat) /\
  side_qualifies (pl 7%nat) (pl 8%nat) (pl 9%nat) (pl 10%nat).

(** Section 4.2: the sum of the weights at the set bits of the mask. *)
Definition weight_sum (plane : Z) (weights : Z -> float32) : float32 :=
  fold_left (fun acc sq => if Z.testbit plane sq then (acc + weights sq)%f32 else acc)
            squares (0.0)%f32.

Definition table_entry (weights : list float32) (sq : Z) : float32 :=
  nth (Z.to_nat sq) weights S754_nan.

(** Section 4.5, steps 1, 2 and 4: one piece type adds the side to move's
    plane against the table and subtracts the reflected plane of the
    opponent against the same table. *)
Definition piece_step (pl : nat -> Z) (q : float32) (piece : nat * list float32)
  : float32 :=
  let (k, table) := piece in
  (q + weight_sum (pl k) (table_entry table)
     - weight_sum (ReverseBytesInBytes (pl (k + 6)%nat)) (table_entry table))%f32.

Definition material_tables : list (nat * list float32) :=
  [(0%nat, kPawns); (1%nat, kKnights); (2%nat, kBishops); (3%nat, kRooks);
   (4%nat, kQueens)].

Definition raw_score (king_table : list float32) (pl : nat -> Z) : float32 :=
  fold_left (piece_step pl) (material_tables ++ [(5%nat, king_table)]) (0.0)%f32.

(** Section 4.5, step 5. *)
Definition squash (expf : float32 -> float32) (q : float32) : float32 :=
  (2.0 / (1.0 + expf (-10.0 * q)) - 1.0)%f32.

(** A sequence of submissions to one computation. *)
Fixpoint submit (expf : float32 -> float32) (inputs : list InputPlanes)
  (self : TrivialNetworkComputation) : outcome TrivialNetworkComputation :=
  match inputs with
  | [] => Returns self
  | input :: rest => self' <- AddInput expf input self ;; submit expf rest self'
  end.

(** The value of one position, evaluated alone in a fresh computation. *)
Definition evaluate_alone (expf : float32 -> float32) (input : InputPlanes)
  : outcome float32 :=
  self <- AddInput expf input NewComputation ;; GetQVal self 0.

(** The pure part of [AddInput] on the twelve masks it reads. *)
Definition position_value (expf : float32 -> float32) (pl : nat -> Z) : float32 :=
  let q := (0.0)%f32 in
  let q := (q + DotProduct (pl 0%nat) kPawns)%f32 in
  let q := (q - DotProduct (ReverseBytesInBytes (pl 6%nat)) kPawns)%f32 in
  let q := (q + DotProduct (pl 1%nat) kKnights)%f32 in
  let q := (q - DotProduct (ReverseBytesInBytes (pl 7%nat)) kKnights)%f32 in
  let q := (q + DotProduct (pl 2%nat) kBishops)%f32 in
  let q := (q - DotProduct (ReverseBytesInBytes (pl 8%nat)) kBishops)%f32 in
  let q := (q + DotProduct (pl 3%nat) kRooks)%f32 in
  let q := (q - DotProduct (ReverseBytesInBytes (pl 9%nat)) kRooks)%f32 in
  let q := (q + DotProduct (pl 4%nat) kQueens)%f32 in
  let q := (q - DotProduct (ReverseBytesInBytes (pl 10%nat)) kQueens)%f32 in
  let endgame :=
    ((pl 4%nat =? 0) ||
     ((pl 3%nat =? 0) && (NumBits (Z.lor (pl 1%nat) (pl 2%nat)) <=? 1))) &&
    ((pl 10%nat =? 0) ||
     ((pl 9%nat =? 0) && (NumBits (Z.lor (pl 7%nat) (pl 8%nat)) <=? 1))) in
  let king := if endgame then kKingsEndgame else kKings in
  let q := (q + DotProduct (pl 5%nat) king)%f32 in
  let q := (q - DotProduct (ReverseBytesInBytes (pl 11%nat)) king)%f32 in
  (2.0 / (1.0 + expf (q * -10.0)) - 1.0)%f32.

(** ** A reference exponential

    An executable exponential on binary32, used to exercise the statements
    that are parametric in [expf]: the argument is taken as a fixed-point
    number with 256 fractional bits, divided by [2^8], sent through the
    Taylor series, squared eight times and rounded once. *)
Module ExpModel.

Definition frac_bits : Z := 256.

Definition one : Z := 2 ^ frac_bits.

Fixpoint taylor (terms : nat) (k term acc y : Z) : Z :=
  match terms with
  | O => acc
  | S terms' =>
      let term' := term * y / one / k in
      taylor terms' (k + 1) term' (acc + term') y
  end.

Fixpoint squarings (n : nat) (e : Z) : Z :=
  match n with
  | O => e
  | S n' => squarings n' (e * e / one)
  end.

Definition exp_fixed (x : Z) : Z :=
  squarings 8 (taylor 60 1 one one (x / 2 ^ 8)).

Definition exp (x : float32) : float32 :=
  match x with
  | S754_nan => S754_nan
  | S754_infinity false => S754_infinity false
  | S754_infinity true => S754_zero false
  | S754_zero _ => (1.0)%f32
  | S754_finite s m e =>
      let x := cond_Zopp s (Z.shiftl (Zpos m) (e + frac_bits)) in
      if 89 * one <=? x then S754_infinity false
      else if x <=? -104 * one then S754_zero false
      else binary_normalize prec32 emax32 (exp_fixed x) (- frac_bits) false
  end.

End ExpModel.

(** ** Positions used as examples *)

Definition plane_of_mask (m : Z) : InputPlane :=
  {| mask := m; value := (1.0)%f32 |}.

(** The board with no piece on it. *)
Definition empty_board : InputPlanes := repeat (plane_of_mask 0) 12.

(** The side to move keeps its whole army, with the eight pawns on the sixth
    rank; the opponent has the bare king. *)
Definition winning_board : InputPlanes :=
  map plane_of_mask
    [0x0000FF0000000000; 0x42; 0x24; 0x81; 0x08; 0x10;
     0; 0; 0; 0; 0; 0x1000000000000000].

(** ** Sequences of calls on one computation *)



Definition is_int (i : Z) : Prop := - 2 ^ 31 <= i < 2 ^ 31.

(** Two inputs carry the same masks at the twelve indices [AddInput] reads. *)
Definition same_masks (input input' : InputPlanes) : Prop :=
  forall k, (k < 12)%nat ->
    option_map mask (nth_error input k) = option_map mask (nth_error input' k).

(** The phase decision of section 4.4 as a boolean, and the king table it
    selects for both kings. *)
Definition side_qualifiesb (knight bishop rook queen : Z) : bool :=
  (queen =? 0) || ((rook =? 0) && (bits_across knight bishop <=? 1)).

Definition is_endgameb (pl : nat -> Z) : bool :=
  side_qualifiesb (pl 1%nat) (pl 2%nat) (pl 3%nat) (pl 4%nat) &&
  side_qualifiesb (pl 7%nat) (pl 8%nat) (pl 9%nat) (pl 10%nat).

Definition selected_king_table (pl : nat -> Z) : list float32 :=
  if is_endgameb pl then kKingsEndgame else kKings.

(** ** Rounding to binary32 *)

(** [m * 2^e <= 2^K] for a mantissa [0 <= m], without leaving the integers. *)
Definition below_pow2 (K m e : Z) : Prop :=
  m = 0 \/ (e <= K /\ m <= 2 ^ (K - e)).

(** The magnitude of a number is at most [2^K]. *)
Definition f32_small (K : Z) (x : float32) : Prop :=
  match x with
  | S754_zero _ => True
  | S754_finite _ m e => below_pow2 K (Zpos m) e
  | _ => False
  end.

(** The upper edge of the position [(mx, lx)] at exponent [ex] is at most
    [2^K]: the number itself when the position is exact, the next multiple
    of [2^ex] when it is not. *)
Definition upper_edge (K mx ex : Z) (lx : location) : Prop :=
  match lx with
  | loc_Exact => below_pow2 K mx ex
  | loc_Inexact _ => ex <= K /\ mx + 1 <= 2 ^ (K - ex)
  end.

(** A rounded result of sign [s] and magnitude at most [2^K]. *)
Definition rounds_below (K : Z) (s : bool) (r : float32) : Prop :=
  match r with
  | S754_zero s' => s' = s
  | S754_finite s' m e => s' = s /\ below_pow2 K (Zpos m) e /\ e <= 104
  | _ => False
  end.

Definition f32_smallb (K : Z) (x : float32) : bool :=
  match x with
  | S754_zero _ => true
  | S754_finite _ m e => (e <=? K) && (Zpos m <=? 2 ^ (K - e))
  | _ => false
  end.

(** Every entry of a 64-entry table has magnitude at most [1/2]. *)
Definition table_small (weights : list float32) : bool :=
  forallb (fun sq => f32_smallb (-1) (nth (Z.to_nat sq) weights S754_nan)) squares.

(** The integer operations of [SpecFloat] under their usual names. *)
Ltac std_Z :=
  change IntDef.Z.add with Z.add in *;
  change IntDef.Z.sub with Z.sub in *;
  change IntDef.Z.mul with Z.mul in *;
  change IntDef.Z.min with Z.min in *;
  change IntDef.Z.max with Z.max in *;
  change IntDef.Z.shiftl with Z.shiftl in *;
  change IntDef.Z.div_eucl with Z.div_eucl in *.


(** ** Further vocabulary *)

(** A zero or a finite number: neither an infinity nor a NaN. *)
Definition f32_is_finite (x : float32) : bool :=
  match x with
  | S754_zero _ | S754_finite _ _ _ => true
  | _ => false
  end.

(** The seven piece-square tables of the file. *)
Definition piece_square_tables : list (list float32) :=
  [kPawns; kKnights; kBishops; kRooks; kQueens; kKings; kKingsEndgame].

(** An opponent with a queen on every square against nothing at all. *)
Definition queens_against : InputPlanes :=
  map plane_of_mask [0; 0; 0; 0; 0; 0; 0; 0; 0; 0; 2 ^ 64 - 1; 0].

(** The starting position: the opponent's planes are the byte-reversed
    images of the planes of the side to move. *)
Definition starting_position : InputPlanes :=
  map plane_of_mask
    [0xFF00; 0x42; 0x24; 0x81; 0x08; 0x10;
     0x00FF000000000000; 0x4200000000000000; 0x2400000000000000;
     0x8100000000000000; 0x0800000000000000; 0x1000000000000000].

(** Section 4.4 as worded: the total number of set bits of the two planes,
    a square set in both planes counted twice. *)
Definition bits_total (a b : Z) : Z := NumBits a + NumBits b.

Definition side_qualifies_by_total (knight bishop rook queen : Z) : Prop :=
  queen = 0 \/ (rook = 0 /\ bits_total knight bishop <= 1).

Definition is_endgame_by_total (pl : nat -> Z) : Prop :=
  side_qualifies_by_total (pl 1%nat) (pl 2%nat) (pl 3%nat) (pl 4%nat) /\
  side_qualifies_by_total (pl 7%nat) (pl 8%nat) (pl 9%nat) (pl 10%nat).

(** A knight plane and a bishop plane that share the square c1, a queen on
    d1, no rook and the king on e1, against a bare king on g8. *)
Definition shared_minor_square : InputPlanes :=
  map plane_of_mask [0; 4; 4; 0; 8; 16; 0; 0; 0; 0; 0; 2 ^ 62].

(** Rook a1, queen d1 and king e1 against a bare king on g8. *)
Definition queen_and_rook : InputPlanes :=
  map plane_of_mask [0; 0; 0; 1; 8; 16; 0; 0; 0; 0; 0; 2 ^ 62].

(** Pawn e2 and king e1 against a bare king on g8. *)
Definition king_and_pawn : InputPlanes :=
  map plane_of_mask [0x1000; 0; 0; 0; 0; 16; 0; 0; 0; 0; 0; 2 ^ 62].

(** ** Reading the input *)

Lemma subscript_in_range {A : Type} (v : list A) (i : Z) (d : A) :
  0 <= i < Z.of_nat (length v) ->
  subscript v i = Returns (nth (Z.to_nat i) v d).
Proof.
  intros Hi. unfold subscript.
  replace ((0 <=? i) && (i <? Z.of_nat (length v))) with true
    by (symmetry; apply andb_true_iff; split; [apply Z.leb_le | apply Z.ltb_lt]; lia).
  destruct (nth_error v (Z.to_nat i)) eqn:E.
  - now rewrite (nth_error_nth _ _ d E).
  - apply nth_error_None in E. lia.
Qed.

Lemma subscript_out_of_range {A : Type} (v : list A) (i : Z) :
  i < 0 \/ Z.of_nat (length v) <= i -> subscript v i = Undefined.
Proof.
  intros Hi. unfold subscript.
  destruct (0 <=? i) eqn:E0; simpl; [|reflexivity].
  destruct (i <? Z.of_nat (length v)) eqn:E1; [|reflexivity].
  apply Z.leb_le in E0. apply Z.ltb_lt in E1. lia.
Qed.

Lemma subscript_never_aborts {A : Type} (v : list A) (i : Z) :
  subscript v i <> Aborts.
Proof.
  unfold subscript.
  destruct ((0 <=? i) && (i <? Z.of_nat (length v))); [|discriminate].
  destruct (nth_error v (Z.to_nat i)); discriminate.
Qed.

Lemma subscript_plane (input : InputPlanes) (k : nat) :
  (k < length input)%nat ->
  subscript input (Z.of_nat k) = Returns (nth k input no_plane).
Proof.
  intros Hk. rewrite (subscript_in_range _ _ no_plane) by lia.
  now rewrite Nat2Z.id.
Qed.

(** On an input with twelve planes or more, [AddInput] appends the value of
    the twelve masks it reads. *)
Lemma AddInput_position_value expf input self :
  (12 <= length input)%nat ->
  AddInput expf input self =
  Returns (push_back self (position_value expf (plane_mask input))).
Proof.
  intros Hlen. unfold AddInput.
  rewrite !(subscript_in_range input _ no_plane) by lia.
  repeat match goal with
         | |- context [Z.to_nat ?z] =>
             let n := eval vm_compute in (Z.to_nat z) in
             change (Z.to_nat z) with n
         end.
  unfold position_value, plane_mask. cbv zeta. cbn [bind].
  match goal with
  | |- context [if ?b then kKingsEndgame else kKings] => destruct b
  end; reflexivity.
Qed.

(** With fewer than twelve planes some subscript leaves the input. *)
Lemma AddInput_short_input expf input self :
  (length input < 12)%nat -> AddInput expf input self = Undefined.
Proof.
  intros Hlen. unfold AddInput.
  do 11 (destruct input as [|? input]; [reflexivity|]).
  destruct input as [|? input]; [|simpl in Hlen; lia].
  repeat match goal with
         | |- context [subscript ?l ?k] =>
             let r := eval cbv in (subscript l k) in
             change (subscript l k) with r
         end.
  cbn [bind].
  match goal with
  | |- context [if ?b then _ else _] => destruct b
  end; reflexivity.
Qed.

(** ** The batch *)

Lemma AddInput_appends expf input self self' :
  AddInput expf input self = Returns self' ->
  exists v, q_ self' = q_ self ++ [v] /\
            evaluate_alone expf input = Returns v.
Proof.
  intros H.
  destruct (Nat.le_gt_cases 12 (length input)) as [Hlen|Hlen].
  - rewrite AddInput_position_value in H by assumption.
    injection H as <-. eexists. split; [reflexivity|].
    unfold evaluate_alone. rewrite AddInput_position_value by assumption.
    reflexivity.
  - rewrite AddInput_short_input in H by assumption. discriminate.
Qed.


Lemma submit_extends expf inputs : forall self self',
  submit expf inputs self = Returns self' ->
  exists vs, q_ self' = q_ self ++ vs /\ length vs = length inputs.
Proof.
  induction inputs as [|input rest IH]; intros self self' H; simpl in H.
  - injection H as <-. exists []. now rewrite app_nil_r.
  - destruct (AddInput expf input self) as [s1| |] eqn:E; try discriminate.
    cbn [bind] in H. destruct (AddInput_appends _ _ _ _ E) as (v & Hv & _).
    destruct (IH _ _ H) as (vs & Hvs & Hl).
    exists (v :: vs). rewrite Hvs, Hv, <- app_assoc. simpl. auto.
Qed.

Lemma int_of_size_t_small n : 0 <= n < 2 ^ 31 -> int_of_size_t n = n.
Proof.
  intros Hn. unfold int_of_size_t.
  rewrite Z.mod_small; lia.
Qed.

Lemma size_t_of_int_nonneg i : 0 <= i < 2 ^ 64 -> size_t_of_int i = i.
Proof. intros Hi. unfold size_t_of_int. now rewrite Z.mod_small. Qed.

Lemma size_t_of_int_negative i :
  - 2 ^ 31 <= i < 0 -> size_t_of_int i = i + 2 ^ 64.
Proof.
  intros Hi. unfold size_t_of_int.
  symmetry. apply Z.mod_unique with (q := -1); lia.
Qed.

Lemma GetQVal_stored self i :
  0 <= i < Z.of_nat (length (q_ self)) -> i < 2 ^ 31 ->
  GetQVal self i = Returns (nth (Z.to_nat i) (q_ self) S754_nan).
Proof.
  intros Hi Hint. unfold GetQVal.
  rewrite size_t_of_int_nonneg by lia.
  now apply subscript_in_range.
Qed.







(** ** The accessors *)

(** C9: [ComputeBlocking] does no work.  Whatever the computation holds, the
    stored values, [GetBatchSize] and every later [GetQVal], [GetDVal],
    [GetMVal] and [GetPVal] are what they were before the call, and so is
    every later [AddInput]. *)
Theorem ComputeBlocking_no_work expf self :
  q_ (ComputeBlocking self) = q_ self /\
  GetBatchSize (ComputeBlocking self) = GetBatchSize self /\
  (forall sample, GetQVal (ComputeBlocking self) sample = GetQVal self sample) /\
  (forall sample, GetDVal (ComputeBlocking self) sample = GetDVal self sample) /\
  (forall sample, GetMVal (ComputeBlocking self) sample = GetMVal self sample) /\
  (forall sample move_id,
     GetPVal (ComputeBlocking self) sample move_id = GetPVal self sample move_id) /\
  (forall input,
     AddInput expf input (ComputeBlocking self) = AddInput expf input self).
Proof. unfold ComputeBlocking. repeat split. Qed.

Lemma kLogPolicy_size : length kLogPolicy = 1858%nat.
Proof. vm_compute. reflexivity. Qed.

(** C4: for a move id in [0, 1858), [GetPVal] returns the entry of the
    constant policy table at that id, whatever the sample index and whatever
    the computation holds; two calls with the same move id agree across
    samples, positions and computations. *)
Theorem GetPVal_constant_table self self' sample sample' move_id :
  0 <= move_id < 1858 ->
  GetPVal self sample move_id =
    Returns (nth (Z.to_nat move_id) kLogPolicy S754_nan) /\
  GetPVal self' sample' move_id = GetPVal self sample move_id.
Proof.
  intros Hid. split; [|reflexivity].
  unfold GetPVal. rewrite size_t_of_int_nonneg by lia.
  apply subscript_in_range. rewrite kLogPolicy_size. lia.
Qed.

Lemma GetPVal_constant_table_witness :
  GetPVal NewComputation 0 1857 =
    Returns (nth 1857 kLogPolicy S754_nan) /\
  GetPVal {| q_ := [(1.0)%f32] |} 5 1857 = GetPVal NewComputation 0 1857.
Proof.
  apply (GetPVal_constant_table NewComputation {| q_ := [(1.0)%f32] |} 0 5 1857).
  lia.
Defined.

(** C8, as amended: the accessors do not check their index.  For a batch of
    fewer than 2^31 values, [GetQVal] returns the stored value when
    [0 <= sample < GetBatchSize ()] and has no defined behaviour for any
    other [int]; [GetPVal] returns the table entry when
    [0 <= move_id < 1858] and has no defined behaviour for any other [int].
    Neither call ever ends in a checked failure. *)
Theorem accessors_unchecked self sample move_id :
  Z.of_nat (length (q_ self)) < 2 ^ 31 ->
  is_int sample -> is_int move_id ->
  GetQVal self sample =
    (if (0 <=? sample) && (sample <? GetBatchSize self)
     then Returns (nth (Z.to_nat sample) (q_ self) S754_nan)
     else Undefined) /\
  GetPVal self sample move_id =
    (if (0 <=? move_id) && (move_id <? 1858)
     then Returns (nth (Z.to_nat move_id) kLogPolicy S754_nan)
     else Undefined) /\
  GetQVal self sample <> Aborts /\
  GetPVal self sample move_id <> Aborts.
Proof.
  unfold is_int. intros Hsize Hs Hm.
  split; [|split; [|split; apply subscript_never_aborts]].
  - unfold GetBatchSize. rewrite int_of_size_t_small by lia.
    destruct (0 <=? sample) eqn:E0; cbn [andb].
    + apply Z.leb_le in E0.
      destruct (sample <? Z.of_nat (length (q_ self))) eqn:E1.
      * apply Z.ltb_lt in E1. apply GetQVal_stored; lia.
      * apply Z.ltb_ge in E1. unfold GetQVal.
        rewrite size_t_of_int_nonneg by lia.
        apply subscript_out_of_range. lia.
    + apply Z.leb_gt in E0. unfold GetQVal.
      rewrite size_t_of_int_negative by lia.
      apply subscript_out_of_range. lia.
  - unfold GetPVal.
    destruct (0 <=? move_id) eqn:E0; cbn [andb].
    + apply Z.leb_le in E0. rewrite size_t_of_int_nonneg by lia.
      destruct (move_id <? 1858) eqn:E1.
      * apply Z.ltb_lt in E1. apply subscript_in_range.
        rewrite kLogPolicy_size. lia.
      * apply Z.ltb_ge in E1. apply subscript_out_of_range.
        rewrite kLogPolicy_size. lia.
    + apply Z.leb_gt in E0. rewrite size_t_of_int_negative by lia.
      apply subscript_out_of_range. rewrite kLogPolicy_size. lia.
Qed.

Lemma accessors_unchecked_witness :
  GetQVal {| q_ := [(1.0)%f32] |} 1 = Undefined /\
  GetPVal {| q_ := [(1.0)%f32] |} 1 (-1) = Undefined.
Proof.
  destruct (accessors_unchecked {| q_ := [(1.0)%f32] |} 1 (-1))
    as (Hq & Hp & _); [simpl; lia | unfold is_int; lia ..|].
  split; [exact Hq | exact Hp].
Defined.

(** C8, the claim as stated fails: on the empty batch [GetQVal 0] has no
    defined behaviour rather than a checked failure, and so has
    [GetPVal] at move id 1858. *)
Lemma accessors_do_not_fail_loudly :
  GetQVal NewComputation 0 = Undefined /\
  GetQVal NewComputation 0 <> Aborts /\
  GetPVal NewComputation 0 1858 = Undefined /\
  GetPVal NewComputation 0 1858 <> Aborts.
Proof.
  assert (Hq : GetQVal NewComputation 0 = Undefined) by reflexivity.
  assert (Hp : GetPVal NewComputation 0 1858 = Undefined).
  { unfold GetPVal. apply subscript_out_of_range. rewrite kLogPolicy_size.
    right. vm_compute. discriminate. }
  rewrite Hq, Hp. repeat split; discriminate.
Qed.

(** ** What [AddInput] reads *)

Lemma position_value_ext expf (pl pl' : nat -> Z) :
  (forall k, (k < 12)%nat -> pl k = pl' k) ->
  position_value expf pl = position_value expf pl'.
Proof.
  intros H. unfold position_value.
  rewrite (H 0%nat), (H 1%nat), (H 2%nat), (H 3%nat), (H 4%nat), (H 5%nat),
    (H 6%nat), (H 7%nat), (H 8%nat), (H 9%nat), (H 10%nat), (H 11%nat) by lia.
  reflexivity.
Qed.

Lemma same_masks_length input input' :
  same_masks input input' -> (length input < 12)%nat -> (length input' < 12)%nat.
Proof.
  intros H Hlen. specialize (H (length input) Hlen).
  rewrite (proj2 (nth_error_None input (length input))) in H by lia.
  destruct (nth_error input' (length input)) eqn:E; [discriminate|].
  apply nth_error_None in E. lia.
Qed.

Lemma same_masks_plane_mask input input' k :
  same_masks input input' -> (12 <= length input)%nat -> (k < 12)%nat ->
  plane_mask input k = plane_mask input' k.
Proof.
  intros H Hlen Hk. specialize (H k Hk). unfold plane_mask.
  destruct (nth_error input k) as [p|] eqn:E.
  - destruct (nth_error input' k) as [p'|] eqn:E'; [|discriminate].
    rewrite (nth_error_nth _ _ _ E), (nth_error_nth _ _ _ E').
    simpl in H. congruence.
  - apply nth_error_None in E. lia.
Qed.

Lemma same_masks_sym input input' :
  same_masks input input' -> same_masks input' input.
Proof. intros H k Hk. symmetry. now apply H. Qed.

(** C10: two inputs that carry the same masks at the indices 0 to 11 make
    [AddInput] store the same value; the [value] fields of the planes and
    the planes from index 12 on are not looked at. *)
Theorem AddInput_reads_twelve_masks expf input input' self :
  same_masks input input' ->
  AddInput expf input self = AddInput expf input' self.
Proof.
  intros H.
  destruct (Nat.le_gt_cases 12 (length input)) as [Hlen|Hlen].
  - assert (Hlen' : (12 <= length input')%nat).
    { destruct (Nat.le_gt_cases 12 (length input')) as [?|Hlt]; [assumption|].
      pose proof (same_masks_length _ _ (same_masks_sym _ _ H) Hlt). lia. }
    rewrite !AddInput_position_value by assumption.
    do 2 f_equal. apply position_value_ext.
    intros k Hk. now apply same_masks_plane_mask.
  - rewrite !AddInput_short_input; eauto using same_masks_length.
Qed.

Lemma AddInput_reads_twelve_masks_witness :
  AddInput ExpModel.exp winning_board NewComputation =
  AddInput ExpModel.exp
    (map (fun p => {| mask := mask p; value := (0.0)%f32 |}) winning_board
     ++ [plane_of_mask 1; plane_of_mask (2 ^ 64 - 1)]) NewComputation.
Proof.
  apply AddInput_reads_twelve_masks.
  intros k Hk.
  do 12 (destruct k as [|k]; [reflexivity|]). lia.
Defined.

(** ** Side reflection *)

Lemma byte_of_testbit v i n :
  0 <= i -> 0 <= n ->
  Z.testbit (byte_of v i) n = (n <? 8) && Z.testbit v (n + 8 * i).
Proof.
  intros Hi Hn. unfold byte_of.
  rewrite Z.land_spec, Z.shiftr_spec by lia.
  change 255 with (Z.ones 8).
  rewrite Z.testbit_ones_nonneg by lia.
  apply andb_comm.
Qed.

Lemma shifted_byte_testbit v i s n :
  0 <= i -> 0 <= s -> 0 <= n ->
  Z.testbit (Z.shiftl (byte_of v i) s) n =
  (s <=? n) && (n <? s + 8) && Z.testbit v (n - s + 8 * i).
Proof.
  intros Hi Hs Hn.
  rewrite Z.shiftl_spec by lia.
  destruct (s <=? n) eqn:E.
  - apply Z.leb_le in E. rewrite byte_of_testbit by lia.
    cbn [andb]. f_equal. apply eq_true_iff_eq.
    rewrite !Z.ltb_lt. lia.
  - apply Z.leb_gt in E. now rewrite Z.testbit_neg_r by lia.
Qed.

(** Bit [n] of the reflection is the bit of the same file on the mirrored
    rank. *)
Lemma ReverseBytesInBytes_testbit v n :
  0 <= n < 64 ->
  Z.testbit (ReverseBytesInBytes v) n = Z.testbit v (56 - 8 * (n / 8) + n mod 8).
Proof.
  intros Hn. unfold ReverseBytesInBytes.
  rewrite !Z.lor_spec, !shifted_byte_testbit by lia.
  rewrite byte_of_testbit by lia.
  assert (Hq : 0 <= n / 8 < 8)
    by (split; [apply Z.div_pos | apply Z.div_lt_upper_bound]; lia).
  pose proof (Z.mod_pos_bound n 8 ltac:(lia)) as Hr.
  pose proof (Z.div_mod n 8 ltac:(lia)) as Hdm.
  assert (Hcase : n / 8 = 0 \/ n / 8 = 1 \/ n / 8 = 2 \/ n / 8 = 3 \/
                  n / 8 = 4 \/ n / 8 = 5 \/ n / 8 = 6 \/ n / 8 = 7) by lia.
  destruct Hcase as [H|[H|[H|[H|[H|[H|[H|H]]]]]]];
  repeat match goal with
         | |- context [?a <=? ?b] =>
             first [ replace (a <=? b) with true by (symmetry; apply Z.leb_le; lia)
                   | replace (a <=? b) with false by (symmetry; apply Z.leb_gt; lia) ]
         | |- context [?a <? ?b] =>
             first [ replace (a <? b) with true by (symmetry; apply Z.ltb_lt; lia)
                   | replace (a <? b) with false by (symmetry; apply Z.ltb_ge; lia) ]
         end;
  cbn [andb orb]; rewrite ?orb_false_r; f_equal; lia.
Qed.

Lemma ReverseBytesInBytes_high_bits v n :
  64 <= n -> Z.testbit (ReverseBytesInBytes v) n = false.
Proof.
  intros Hn. unfold ReverseBytesInBytes.
  rewrite !Z.lor_spec, !shifted_byte_testbit by lia.
  rewrite byte_of_testbit by lia.
  repeat match goal with
         | |- context [?a <? ?b] =>
             replace (a <? b) with false by (symmetry; apply Z.ltb_ge; lia)
         end.
  now rewrite ?andb_false_r.
Qed.

Lemma uint64_high_bits v n : is_uint64 v -> 64 <= n -> Z.testbit v n = false.
Proof.
  intros [Hv0 Hv1] Hn.
  destruct (Z.eq_dec v 0) as [->|Hnz]; [apply Z.testbit_0_l|].
  apply Z.bits_above_log2; [lia|].
  assert (Z.log2 v < 64) by (apply Z.log2_lt_pow2; lia). lia.
Qed.

(** The reflection of a mask is a mask. *)
Lemma ReverseBytesInBytes_uint64 v : is_uint64 (ReverseBytesInBytes v).
Proof.
  assert (Hnn : 0 <= ReverseBytesInBytes v).
  { unfold ReverseBytesInBytes, byte_of.
    repeat (apply Z.lor_nonneg; split);
      try (apply Z.shiftl_nonneg); apply Z.land_nonneg; right; lia. }
  split; [exact Hnn|].
  destruct (Z.eq_dec (ReverseBytesInBytes v) 0) as [->|Hnz]; [lia|].
  apply Z.log2_lt_pow2; [lia|].
  destruct (Z.lt_ge_cases (Z.log2 (ReverseBytesInBytes v)) 64) as [?|Hge];
    [assumption|].
  pose proof (Z.bit_log2 (ReverseBytesInBytes v) ltac:(lia)) as Hbit.
  rewrite ReverseBytesInBytes_high_bits in Hbit by lia. discriminate.
Qed.

(** C7: the side reflection is an involution on 64-bit masks, 0 and
    all-ones included, hence a bijection on them. *)
Theorem ReverseBytesInBytes_involution v :
  is_uint64 v -> ReverseBytesInBytes (ReverseBytesInBytes v) = v.
Proof.
  intros Hv. apply Z.bits_inj'. intros n Hn.
  destruct (Z.lt_ge_cases n 64) as [Hlt|Hge].
  - rewrite ReverseBytesInBytes_testbit by lia.
    assert (Hq : 0 <= n / 8 < 8)
      by (split; [apply Z.div_pos | apply Z.div_lt_upper_bound]; lia).
    pose proof (Z.mod_pos_bound n 8 ltac:(lia)) as Hr.
    pose proof (Z.div_mod n 8 ltac:(lia)) as Hdm.
    rewrite ReverseBytesInBytes_testbit by lia.
    f_equal.
    assert (Hq' : (56 - 8 * (n / 8) + n mod 8) / 8 = 7 - n / 8).
    { symmetry. apply Z.div_unique with (r := n mod 8); lia. }
    assert (Hr' : (56 - 8 * (n / 8) + n mod 8) mod 8 = n mod 8).
    { symmetry. apply Z.mod_unique with (q := 7 - n / 8); lia. }
    rewrite Hq', Hr'. lia.
  - rewrite ReverseBytesInBytes_high_bits by lia.
    symmetry. now apply uint64_high_bits.
Qed.

Lemma ReverseBytesInBytes_involution_witness :
  ReverseBytesInBytes (ReverseBytesInBytes 0) = 0 /\
  ReverseBytesInBytes (ReverseBytesInBytes (2 ^ 64 - 1)) = 2 ^ 64 - 1 /\
  ReverseBytesInBytes (ReverseBytesInBytes 0x0123456789ABCDEF) = 0x0123456789ABCDEF.
Proof.
  split; [|split]; apply ReverseBytesInBytes_involution; unfold is_uint64; lia.
Defined.

Example ReverseBytesInBytes_sample :
  ReverseBytesInBytes 0x0123456789ABCDEF = 0xEFCDAB8967452301.
Proof. reflexivity. Qed.

(** ** The evaluation *)

Lemma fold_left_filter {A B : Type} (f : A -> B -> A) (p : B -> bool) l :
  forall a,
    fold_left f (filter p l) a =
    fold_left (fun acc x => if p x then f acc x else acc) l a.
Proof.
  induction l as [|x l IH]; intros a; simpl; [reflexivity|].
  destruct (p x); simpl; apply IH.
Qed.

(** [DotProduct] is the sum of the weights at the set bits, in ascending
    order of the squares. *)
Lemma DotProduct_weight_sum plane weights :
  DotProduct plane weights = weight_sum plane (table_entry weights).
Proof. unfold DotProduct, IterateBits. apply fold_left_filter. Qed.

Lemma DotProduct_empty weights : DotProduct 0 weights = (0.0)%f32.
Proof. reflexivity. Qed.

(** [NumBits] of the union of two planes counts the squares set in either. *)
Lemma NumBits_lor a b : NumBits (Z.lor a b) = bits_across a b.
Proof.
  unfold NumBits, bits_across, IterateBits. do 2 f_equal.
  apply filter_ext. intros sq. apply Z.lor_spec.
Qed.

Lemma side_qualifiesb_spec knight bishop rook queen :
  side_qualifiesb knight bishop rook queen = true <->
  side_qualifies knight bishop rook queen.
Proof.
  unfold side_qualifiesb, side_qualifies.
  rewrite orb_true_iff, andb_true_iff, !Z.eqb_eq, Z.leb_le. reflexivity.
Qed.

Lemma is_endgameb_spec pl : is_endgameb pl = true <-> is_endgame pl.
Proof.
  unfold is_endgameb, is_endgame.
  rewrite andb_true_iff, !side_qualifiesb_spec. reflexivity.
Qed.

Lemma f32_mul_comm x y : (x * y)%f32 = (y * x)%f32.
Proof.
  destruct x as [sx|sx| |sx mx ex], y as [sy|sy| |sy my ey];
    cbn [f32_mul SFmul]; unfold f32_mul; cbn [SFmul];
    rewrite ?(xorb_comm sx sy); try reflexivity.
  now rewrite (Pos.mul_comm mx my), (Z.add_comm ex ey).
Qed.

(** The straight-line code of [AddInput] is the running sum of section 4.5
    over the five piece types and the selected king table. *)
Lemma position_value_raw_score expf pl :
  position_value expf pl =
  squash expf (raw_score (selected_king_table pl) pl).
Proof.
  unfold position_value, squash, raw_score, selected_king_table.
  unfold is_endgameb, side_qualifiesb. rewrite <- !NumBits_lor.
  rewrite (f32_mul_comm (-10.0)%f32).
  cbn [material_tables app fold_left piece_step Nat.add].
  rewrite <- !DotProduct_weight_sum.
  reflexivity.
Qed.

(** On planes that share no square, the squares set across the two planes
    are as many as the bits of the one plus the bits of the other. *)
Lemma bits_across_disjoint a b :
  Z.land a b = 0 -> bits_across a b = NumBits a + NumBits b.
Proof.
  intros Hd. unfold bits_across, NumBits, IterateBits.
  rewrite <- Nat2Z.inj_add. f_equal.
  induction squares as [|sq l IH]; [reflexivity|].
  cbn [filter].
  assert (Hsq : Z.testbit a sq && Z.testbit b sq = false)
    by (rewrite <- Z.land_spec, Hd; apply Z.testbit_0_l).
  destruct (Z.testbit a sq), (Z.testbit b sq); try discriminate Hsq;
    cbn [orb length]; rewrite IH; lia.
Qed.

(** C1, as amended: on every input of twelve planes or more the position
    counts as endgame exactly when both sides qualify, a side qualifying
    when its queen plane is empty, or its rook plane is empty and at most
    one square is set in its knight plane or its bishop plane, a square set
    in both counted once.  The one decision selects the table of both
    kings: the endgame king table when it holds, the midgame king table
    otherwise.  For planes that share no square, as on a board, the squares
    so counted are the bits of the one plane plus the bits of the other. *)
Theorem endgame_selects_king_table expf input self :
  (12 <= length input)%nat ->
  (is_endgame (plane_mask input) ->
   AddInput expf input self =
   Returns (push_back self
              (squash expf (raw_score kKingsEndgame (plane_mask input))))) /\
  (~ is_endgame (plane_mask input) ->
   AddInput expf input self =
   Returns (push_back self
              (squash expf (raw_score kKings (plane_mask input))))) /\
  (forall knight bishop, Z.land knight bishop = 0 ->
     bits_across knight bishop = NumBits knight + NumBits bishop).
Proof.
  intros Hlen.
  rewrite AddInput_position_value, position_value_raw_score by assumption.
  unfold selected_king_table.
  split; [|split; [|exact bits_across_disjoint]].
  - intros H. apply is_endgameb_spec in H. now rewrite H.
  - intros H. destruct (is_endgameb (plane_mask input)) eqn:E; [|reflexivity].
    apply is_endgameb_spec in E. contradiction.
Qed.

(* Queen and rook against the bare king take the midgame table, king and
   pawn against the bare king the endgame table; on both positions the two
   tables give different values. *)
Lemma endgame_selects_king_table_witness :
  (AddInput ExpModel.exp queen_and_rook NewComputation =
   Returns (push_back NewComputation
              (squash ExpModel.exp (raw_score kKings (plane_mask queen_and_rook)))) /\
   squash ExpModel.exp (raw_score kKings (plane_mask queen_and_rook)) <>
   squash ExpModel.exp (raw_score kKingsEndgame (plane_mask queen_and_rook))) /\
  (AddInput ExpModel.exp king_and_pawn NewComputation =
   Returns (push_back NewComputation
              (squash ExpModel.exp (raw_score kKingsEndgame (plane_mask king_and_pawn)))) /\
   squash ExpModel.exp (raw_score kKingsEndgame (plane_mask king_and_pawn)) <>
   squash ExpModel.exp (raw_score kKings (plane_mask king_and_pawn))).
Proof.
  split; split.
  - destruct (endgame_selects_king_table ExpModel.exp queen_and_rook NewComputation)
      as (_ & H & _); [simpl; lia|].
    apply H. intros [[Hq|[Hr _]] _];
      [vm_compute in Hq; discriminate Hq | vm_compute in Hr; discriminate Hr].
  - intros H. vm_compute in H. discriminate H.
  - destruct (endgame_selects_king_table ExpModel.exp king_and_pawn NewComputation)
      as (H & _); [simpl; lia|].
    apply H. split; left; reflexivity.
  - intros H. vm_compute in H. discriminate H.
Defined.

(** C1, the claim as stated fails: with a knight plane and a bishop plane
    that share their one square the total number of set bits of the two
    planes is 2, so the side holding a queen does not qualify as worded;
    yet [NumBits (knight | bishop)] is 1, the code takes the position for
    an endgame and scores the kings with the endgame table, which gives a
    value other than the midgame table does. *)
Lemma endgame_counts_shared_square_once :
  (12 <= length shared_minor_square)%nat /\
  bits_total (plane_mask shared_minor_square 1) (plane_mask shared_minor_square 2) = 2 /\
  ~ is_endgame_by_total (plane_mask shared_minor_square) /\
  AddInput ExpModel.exp shared_minor_square NewComputation =
    Returns (push_back NewComputation
               (squash ExpModel.exp
                  (raw_score kKingsEndgame (plane_mask shared_minor_square)))) /\
  squash ExpModel.exp (raw_score kKingsEndgame (plane_mask shared_minor_square)) <>
  squash ExpModel.exp (raw_score kKings (plane_mask shared_minor_square)).
Proof.
  split; [simpl; lia|]. split; [vm_compute; reflexivity|]. split; [|split].
  - intros [[Hq|[_ Hc]] _].
    + vm_compute in Hq. discriminate Hq.
    + vm_compute in Hc. apply Hc. reflexivity.
  - vm_compute. reflexivity.
  - intros H. vm_compute in H. discriminate H.
Qed.

(** C2: on every input of twelve planes or more the stored value is
    [2 / (1 + exp (-10 * q)) - 1] for the raw score [q]: the running sum,
    from 0, over pawn, knight, bishop, rook, queen and the king table of the
    phase, of the weights at the set bits of the side to move's plane minus
    the weights at the set bits of the byte-reversed plane of the
    opponent. *)
Theorem AddInput_stores_squashed_score expf input self :
  (12 <= length input)%nat ->
  AddInput expf input self =
  Returns (push_back self
             (squash expf
                (raw_score (selected_king_table (plane_mask input))
                           (plane_mask input)))).
Proof.
  intros Hlen.
  now rewrite AddInput_position_value, position_value_raw_score.
Qed.

Lemma AddInput_stores_squashed_score_witness :
  AddInput ExpModel.exp winning_board NewComputation =
  Returns (push_back NewComputation
             (squash ExpModel.exp
                (raw_score (selected_king_table (plane_mask winning_board))
                           (plane_mask winning_board)))).
Proof.
  apply (AddInput_stores_squashed_score ExpModel.exp winning_board NewComputation).
  simpl. lia.
Defined.

Lemma weight_sum_empty weights : weight_sum 0 weights = (0.0)%f32.
Proof. reflexivity. Qed.

Lemma fexp32_eq e : fexp prec32 emax32 e = Z.max (e - 24) (-149).
Proof. reflexivity. Qed.

Lemma digits2_pos_bounds m :
  2 ^ (Zpos (digits2_pos m) - 1) <= Zpos m < 2 ^ Zpos (digits2_pos m).
Proof.
  induction m as [p IH|p IH|]; cbn [digits2_pos].
  - rewrite Pos2Z.inj_succ. change (Zpos p~1) with (2 * Zpos p + 1).
    replace (Z.succ (Zpos (digits2_pos p)) - 1)
      with (Z.succ (Zpos (digits2_pos p) - 1)) by (clear; lia).
    rewrite !Z.pow_succ_r; lia.
  - rewrite Pos2Z.inj_succ. change (Zpos p~0) with (2 * Zpos p).
    replace (Z.succ (Zpos (digits2_pos p)) - 1)
      with (Z.succ (Zpos (digits2_pos p) - 1)) by (clear; lia).
    rewrite !Z.pow_succ_r; lia.
  - simpl. lia.
Qed.

Lemma Zdigits2_nonneg m : 0 <= Zdigits2 m.
Proof. destruct m; simpl; lia. Qed.

Lemma Zdigits2_bounds m :
  0 < m -> 2 ^ (Zdigits2 m - 1) <= m < 2 ^ Zdigits2 m.
Proof. destruct m as [|p|p]; try lia. intros _. apply digits2_pos_bounds. Qed.

Lemma Zdigits2_pos m : 0 < m -> 0 < Zdigits2 m.
Proof. destruct m; simpl; lia. Qed.

Lemma pow2_lt_exponent a b : 0 <= b -> 2 ^ a < 2 ^ b -> a < b.
Proof.
  intros Hb H. destruct (Z.lt_ge_cases a b) as [|Hge]; [assumption|].
  assert (2 ^ b <= 2 ^ a) by (apply Z.pow_le_mono_r; lia). lia.
Qed.

Lemma Zdigits2_unique m d :
  0 < d -> 2 ^ (d - 1) <= m < 2 ^ d -> Zdigits2 m = d.
Proof.
  intros Hd [Hlo Hhi].
  assert (Hm : 0 < m) by (pose proof (Z.pow_pos_nonneg 2 (d - 1)); lia).
  pose proof (Zdigits2_bounds m Hm) as [Hlo' Hhi'].
  pose proof (Zdigits2_pos m Hm) as Hpos.
  assert (d - 1 < Zdigits2 m) by (apply pow2_lt_exponent; lia).
  assert (Zdigits2 m - 1 < d) by (apply pow2_lt_exponent; lia).
  lia.
Qed.

Lemma Zdigits2_le m m' : 0 <= m <= m' -> Zdigits2 m <= Zdigits2 m'.
Proof.
  intros [H0 Hle].
  destruct (Z.eq_dec m 0) as [->|Hnz]; [apply Zdigits2_nonneg|].
  pose proof (Zdigits2_bounds m ltac:(lia)) as [Hlo _].
  pose proof (Zdigits2_bounds m' ltac:(lia)) as [_ Hhi'].
  pose proof (Zdigits2_pos m' ltac:(lia)).
  assert (Zdigits2 m - 1 < Zdigits2 m') by (apply pow2_lt_exponent; lia).
  lia.
Qed.

Lemma div_pow2_small m n : 0 <= m -> Zdigits2 m <= n -> m / 2 ^ n = 0.
Proof.
  intros Hm Hn. apply Z.div_small. split; [assumption|].
  destruct (Z.eq_dec m 0) as [->|Hnz].
  - apply Z.pow_pos_nonneg; [lia|]. pose proof (Zdigits2_nonneg 0); lia.
  - pose proof (Zdigits2_bounds m ltac:(lia)) as [_ Hhi].
    assert (2 ^ Zdigits2 m <= 2 ^ n) by (apply Z.pow_le_mono_r; lia). lia.
Qed.

Lemma Zdigits2_div_pow2 m n :
  0 < m -> 0 <= n < Zdigits2 m -> Zdigits2 (m / 2 ^ n) = Zdigits2 m - n.
Proof.
  intros Hm Hn.
  pose proof (Zdigits2_bounds m Hm) as [Hlo Hhi].
  assert (Hp : 0 < 2 ^ n) by (apply Z.pow_pos_nonneg; lia).
  apply Zdigits2_unique; [lia|]. split.
  - apply Z.div_le_lower_bound; [assumption|].
    rewrite <- Z.pow_add_r by lia.
    replace (n + (Zdigits2 m - n - 1)) with (Zdigits2 m - 1) by lia. assumption.
  - apply Z.div_lt_upper_bound; [assumption|].
    rewrite <- Z.pow_add_r by lia.
    replace (n + (Zdigits2 m - n)) with (Zdigits2 m) by lia. assumption.
Qed.

(** *** Shifting right *)

Lemma shr_1_spec m r s :
  0 <= m ->
  shr_1 {| shr_m := m; shr_r := r; shr_s := s |} =
  {| shr_m := m / 2; shr_r := Z.odd m; shr_s := r || s |}.
Proof.
  intros Hm. rewrite <- Z.div2_div.
  destruct m as [|[p|p|]|]; try lia; reflexivity.
Qed.

Lemma iter_pos_invariant {A : Type} (f : A -> A) (P : Z -> A -> Prop) :
  (forall k a, 0 <= k -> P k a -> P (k + 1) (f a)) ->
  forall p k a, 0 <= k -> P k a -> P (k + Zpos p) (iter_pos f p a).
Proof.
  intros Hstep. induction p as [p IH|p IH|]; intros k a Hk Ha; cbn [iter_pos].
  - replace (k + Zpos p~1) with (k + 1 + Zpos p + Zpos p) by lia.
    apply IH; [lia|]. apply IH; [lia|]. now apply Hstep.
  - replace (k + Zpos p~0) with (k + Zpos p + Zpos p) by lia.
    apply IH; [lia|]. now apply IH.
  - now apply Hstep.
Qed.

(** After [n] steps the mantissa is the quotient by [2^n]; the position is
    exact exactly when it was exact and no set bit was shifted out. *)
Lemma iter_shr_1_spec mx r0 s0 p :
  0 <= mx ->
  let mrs := iter_pos shr_1 p {| shr_m := mx; shr_r := r0; shr_s := s0 |} in
  shr_m mrs = mx / 2 ^ Zpos p /\
  ((shr_r mrs = false /\ shr_s mrs = false) <->
   (r0 = false /\ s0 = false /\ mx mod 2 ^ Zpos p = 0)).
Proof.
  intros Hmx.
  pose (P := fun k mrs =>
    shr_m mrs = mx / 2 ^ k /\
    ((shr_r mrs = false /\ shr_s mrs = false) <->
     (r0 = false /\ s0 = false /\ mx mod 2 ^ k = 0))).
  change (P (0 + Zpos p) (iter_pos shr_1 p {| shr_m := mx; shr_r := r0; shr_s := s0 |})).
  apply iter_pos_invariant; [|lia|].
  - intros k [m r s] Hk [Hm Hex]. cbn [shr_m shr_r shr_s] in *.
    assert (Hp : 0 < 2 ^ k) by (apply Z.pow_pos_nonneg; lia).
    assert (Hm0 : 0 <= m) by (subst m; apply Z.div_pos; lia).
    rewrite shr_1_spec by assumption. unfold P. cbn [shr_m shr_r shr_s].
    rewrite Z.pow_add_r, Z.pow_1_r by lia. split.
    + subst m. rewrite Z.div_div by lia. reflexivity.
    + rewrite orb_false_iff.
      assert (Hodd : Z.odd m = false <-> m mod 2 = 0).
      { rewrite Zmod_odd. destruct (Z.odd m); split; intros; congruence. }
      rewrite Hodd. split.
      * intros (Heven & Hrs). apply Hex in Hrs as (-> & -> & Hmod).
        repeat split.
        apply Z.mod_divide in Hmod; [|lia]. destruct Hmod as [c Hc].
        assert (m = c) by (subst m mx; now rewrite Z.div_mul by lia).
        subst c. apply Z.mod_divide in Heven; [|lia]. destruct Heven as [c' Hc'].
        apply Z.mod_divide; [lia|]. exists c'. lia.
      * intros (-> & -> & Hmod).
        apply Z.mod_divide in Hmod; [|lia]. destruct Hmod as [c Hc].
        assert (Hmc : m = 2 * c).
        { subst m mx. replace (c * (2 ^ k * 2)) with (2 * c * 2 ^ k) by lia.
          now rewrite Z.div_mul by lia. }
        split.
        -- rewrite Hmc, Z.mul_comm. apply Z.mod_mul. lia.
        -- apply Hex. repeat split. apply Z.mod_divide; [lia|].
           exists (2 * c). lia.
  - unfold P. cbn [shr_m shr_r shr_s]. rewrite Z.pow_0_r, Z.div_1_r, Z.mod_1_r.
    tauto.
Qed.

Lemma loc_of_shr_record_of_loc m l :
  loc_of_shr_record (shr_record_of_loc m l) = l.
Proof. destruct l as [|[| |]]; reflexivity. Qed.

Lemma shr_record_of_loc_m m l : shr_m (shr_record_of_loc m l) = m.
Proof. destruct l as [|[| |]]; reflexivity. Qed.

Lemma loc_Exact_bits mrs :
  loc_of_shr_record mrs = loc_Exact <-> shr_r mrs = false /\ shr_s mrs = false.
Proof.
  destruct mrs as [m [|] [|]]; cbn; split; intros H;
    try discriminate; try tauto; destruct H; discriminate.
Qed.

(** [shr_fexp] on a mantissa [0 <= mx]: the shift is by [n], the distance
    to the exponent of the format, when that is positive. *)
Lemma shr_fexp_spec mx ex lx :
  0 <= mx ->
  let n := fexp prec32 emax32 (Zdigits2 mx + ex) - ex in
  let mrs := fst (shr_fexp prec32 emax32 mx ex lx) in
  let e' := snd (shr_fexp prec32 emax32 mx ex lx) in
  (n <= 0 -> shr_m mrs = mx /\ e' = ex /\ loc_of_shr_record mrs = lx) /\
  (0 < n -> shr_m mrs = mx / 2 ^ n /\ e' = ex + n /\
            (loc_of_shr_record mrs = loc_Exact <->
             lx = loc_Exact /\ mx mod 2 ^ n = 0)).
Proof.
  intros Hmx n. unfold shr_fexp, shr. fold n.
  destruct n as [|p|p] eqn:En; cbn [fst snd].
  - split; [|lia]. intros _.
    now rewrite shr_record_of_loc_m, loc_of_shr_record_of_loc.
  - split; [lia|]. intros _.
    destruct (shr_record_of_loc mx lx) as [m0 r0 s0] eqn:Erec.
    assert (Hm0 : m0 = mx).
    { rewrite <- (shr_record_of_loc_m mx lx), Erec. reflexivity. }
    subst m0.
    pose proof (iter_shr_1_spec mx r0 s0 p Hmx) as [Hm Hex].
    split; [exact Hm|]. split; [reflexivity|].
    rewrite loc_Exact_bits, Hex.
    assert (Hl : lx = loc_Exact <-> r0 = false /\ s0 = false).
    { rewrite <- (loc_of_shr_record_of_loc mx lx), Erec.
      apply (loc_Exact_bits {| shr_m := mx; shr_r := r0; shr_s := s0 |}). }
    rewrite Hl. tauto.
  - split; [|lia]. intros _.
    now rewrite shr_record_of_loc_m, loc_of_shr_record_of_loc.
Qed.

Lemma round_nearest_even_bounds m l :
  m <= round_nearest_even m l <= m + 1 /\
  (l = loc_Exact -> round_nearest_even m l = m).
Proof.
  destruct l as [|[| |]]; cbn [round_nearest_even];
    try destruct (Z.even m); split; try reflexivity; try discriminate; lia.
Qed.

Lemma pow2_le_exponent a b : 0 <= b -> 2 ^ a <= 2 ^ b -> a <= b.
Proof.
  intros Hb H. destruct (Z.le_gt_cases a b) as [|Hgt]; [assumption|].
  assert (2 ^ b < 2 ^ a) by (apply Z.pow_lt_mono_r; lia). lia.
Qed.

Lemma pow2_split a b : 0 <= a -> 0 <= b -> 2 ^ (a + b) = 2 ^ a * 2 ^ b.
Proof. intros. now apply Z.pow_add_r. Qed.

Lemma pow2_pos a : 0 <= a -> 0 < 2 ^ a.
Proof. intros. apply Z.pow_pos_nonneg; lia. Qed.

(** A mantissa under a power of two has its digits under the exponent. *)
Lemma digits_below_pow2 K m e :
  0 < m -> e <= K -> m <= 2 ^ (K - e) -> Zdigits2 m + e - 1 <= K.
Proof.
  intros Hm He Hle.
  pose proof (Zdigits2_bounds m Hm) as [Hlo _].
  assert (Zdigits2 m - 1 <= K - e) by (apply pow2_le_exponent; lia). lia.
Qed.

Lemma upper_edge_positive K mx ex lx :
  0 < mx -> upper_edge K mx ex lx -> ex <= K /\ mx <= 2 ^ (K - ex).
Proof.
  intros Hmx H. destruct lx; cbn [upper_edge] in H.
  - destruct H as [H|H]; [lia | exact H].
  - split; [tauto | lia].
Qed.

(** The first shift of [binary_round_aux] keeps the upper edge. *)
Lemma shr_fexp_upper_edge K mx ex lx :
  0 <= mx -> -149 <= K -> upper_edge K mx ex lx ->
  let mrs := fst (shr_fexp prec32 emax32 mx ex lx) in
  let e' := snd (shr_fexp prec32 emax32 mx ex lx) in
  0 <= shr_m mrs /\
  upper_edge K (shr_m mrs) e' (loc_of_shr_record mrs) /\
  (ex <= 104 -> K <= 127 -> e' <= 104).
Proof.
  intros Hmx HK Hedge mrs e'.
  pose proof (shr_fexp_spec mx ex lx Hmx) as [Hstay Hshift].
  fold mrs e' in Hstay, Hshift.
  set (n := fexp prec32 emax32 (Zdigits2 mx + ex) - ex) in *.
  destruct (Z.le_gt_cases n 0) as [Hn|Hn].
  - destruct (Hstay Hn) as (-> & -> & ->). auto.
  - destruct (Hshift Hn) as (Hm & He & Hloc). clear Hstay Hshift.
    assert (Hpn : 0 < 2 ^ n) by (apply pow2_pos; lia).
    assert (Hm1 : 0 <= shr_m mrs) by (rewrite Hm; apply Z.div_pos; lia).
    assert (HeK : e' <= K /\ (K <= 127 -> e' <= 104)).
    { subst n. rewrite fexp32_eq in *.
      destruct (Z.le_gt_cases (Zdigits2 mx + ex - 24) (-149)) as [Hsub|Hnorm].
      - rewrite Z.max_r in * by assumption. lia.
      - rewrite Z.max_l in * by lia.
        assert (Hpos : 0 < mx).
        { destruct (Z.eq_dec mx 0) as [->|]; [cbn in Hn; lia | lia]. }
        destruct (upper_edge_positive _ _ _ _ Hpos Hedge) as [HexK Hle].
        pose proof (digits_below_pow2 K mx ex Hpos HexK Hle). lia. }
    destruct HeK as [HeK He104].
    split; [exact Hm1|]. split; [|auto].
    assert (Hsplit : 2 ^ (K - ex) = 2 ^ (K - e') * 2 ^ n).
    { rewrite <- pow2_split by lia. f_equal. lia. }
    destruct (loc_of_shr_record mrs) eqn:El; cbn [upper_edge].
    + destruct (Z.eq_dec mx 0) as [Hz|Hnz].
      * left. rewrite Hm, Hz. apply Z.div_0_l. lia.
      * destruct (upper_edge_positive K mx ex lx ltac:(lia) Hedge) as [HexK Hle].
        right. split; [exact HeK|].
        rewrite Hm. apply Z.div_le_upper_bound; [lia|]. lia.
    + assert (Hstrict : ex <= K /\ mx < 2 ^ (K - ex)).
      { destruct lx as [|c']; cbn [upper_edge] in Hedge.
        - assert (Hmod : mx mod 2 ^ n <> 0).
          { intros Hmod. assert (loc_Inexact c = loc_Exact) as Habs
              by (apply Hloc; auto).
            discriminate Habs. }
          destruct Hedge as [->|[HexK Hle]].
          + exfalso. apply Hmod. apply Z.mod_0_l. lia.
          + split; [exact HexK|].
            destruct (Z.eq_dec mx (2 ^ (K - ex))) as [Heq|]; [|lia].
            exfalso. apply Hmod. rewrite Heq, Hsplit. apply Z.mod_mul. lia.
        - lia. }
      split; [exact HeK|].
      assert (shr_m mrs < 2 ^ (K - e')); [|lia].
      rewrite Hm. apply Z.div_lt_upper_bound; [lia|]. lia.
Qed.

(** The second shift, of an exact mantissa, can only lose low bits. *)
Lemma shr_fexp_exact_below K m e :
  0 <= m -> -149 <= K -> below_pow2 K m e ->
  let mrs := fst (shr_fexp prec32 emax32 m e loc_Exact) in
  let e' := snd (shr_fexp prec32 emax32 m e loc_Exact) in
  0 <= shr_m mrs /\ below_pow2 K (shr_m mrs) e' /\
  (e <= 104 -> K <= 127 -> e' <= 104).
Proof.
  intros Hm HK Hb.
  pose proof (shr_fexp_upper_edge K m e loc_Exact Hm HK Hb) as (H0 & Hedge & H104).
  cbv zeta. split; [exact H0|]. split; [|exact H104].
  destruct (Z.eq_dec (shr_m (fst (shr_fexp prec32 emax32 m e loc_Exact))) 0)
    as [Hz|Hnz]; [left; exact Hz|].
  right. eapply upper_edge_positive; [|exact Hedge]. cbv zeta in H0. lia.
Qed.

(** Rounding does not cross a power of two: a position whose upper edge is
    at most [2^K] rounds to a number of magnitude at most [2^K]. *)
Lemma binary_round_aux_below K s mx ex lx :
  0 <= mx -> -149 <= K <= 127 -> ex <= 104 -> upper_edge K mx ex lx ->
  rounds_below K s (binary_round_aux prec32 emax32 s mx ex lx).
Proof.
  intros Hmx [HK HK'] Hex Hedge. unfold binary_round_aux.
  pose proof (shr_fexp_upper_edge K mx ex lx Hmx HK Hedge) as (H1 & Hedge1 & He1).
  destruct (shr_fexp prec32 emax32 mx ex lx) as [mrs1 e1]. cbn [fst snd] in *.
  specialize (He1 Hex HK').
  pose proof (round_nearest_even_bounds (shr_m mrs1) (loc_of_shr_record mrs1))
    as [[Hlo Hhi] Hexact].
  set (m2 := round_nearest_even (shr_m mrs1) (loc_of_shr_record mrs1)) in *.
  assert (Hb2 : below_pow2 K m2 e1).
  { destruct (loc_of_shr_record mrs1); cbn [upper_edge] in Hedge1.
    - now rewrite Hexact.
    - right. split; [tauto | lia]. }
  pose proof (shr_fexp_exact_below K m2 e1 ltac:(lia) HK Hb2) as (H3 & Hb3 & He3).
  destruct (shr_fexp prec32 emax32 m2 e1 loc_Exact) as [mrs3 e3]. cbn [fst snd] in *.
  specialize (He3 He1 HK').
  destruct (shr_m mrs3) as [|m|m] eqn:Em3; cbn [rounds_below]; [reflexivity| |lia].
  replace (Z.leb e3 (emax32 - prec32)) with true
    by (symmetry; apply Z.leb_le; unfold emax32, prec32; lia).
  cbn [rounds_below]. auto.
Qed.

(** *** Alignment and [binary_round] *)

Lemma iter_xO_pow2 m d : Zpos (Pos.iter xO m d) = Zpos m * 2 ^ Zpos d.
Proof.
  induction d as [|d IH] using Pos.peano_ind.
  - change (Zpos (Pos.iter xO m 1)) with (2 * Zpos m). lia.
  - rewrite Pos.iter_succ, Pos2Z.inj_succ, Z.pow_succ_r by lia.
    change (Zpos (Pos.iter xO m d)~0) with (2 * Zpos (Pos.iter xO m d)).
    rewrite IH. lia.
Qed.

Lemma shl_align_spec mx ex ex' :
  let mz := fst (shl_align mx ex ex') in
  let ez := snd (shl_align mx ex ex') in
  (ex' < ex -> Zpos mz = Zpos mx * 2 ^ (ex - ex') /\ ez = ex') /\
  (ex <= ex' -> mz = mx /\ ez = ex).
Proof.
  unfold shl_align.
  destruct (ex' - ex) as [|d|d] eqn:E; cbn [fst snd].
  - split; [lia | auto].
  - split; [lia | auto].
  - split; [|lia]. intros _. split; [|reflexivity].
    rewrite iter_xO_pow2. f_equal. f_equal. lia.
Qed.

Lemma below_pow2_mono K K' m e :
  K <= K' -> below_pow2 K m e -> below_pow2 K' m e.
Proof.
  intros HK [H|[He Hm]]; [left; exact H|]. right. split; [lia|].
  assert (2 ^ (K - e) <= 2 ^ (K' - e)) by (apply Z.pow_le_mono_r; lia). lia.
Qed.

Lemma below_pow2_shift K m e d :
  0 <= d -> e <= K -> m <= 2 ^ (K - e) ->
  e - d <= K /\ m * 2 ^ d <= 2 ^ (K - (e - d)).
Proof.
  intros Hd He Hm. split; [lia|].
  replace (K - (e - d)) with (K - e + d) by lia.
  rewrite pow2_split by lia.
  apply Z.mul_le_mono_nonneg_r; [|exact Hm].
  pose proof (pow2_pos d Hd). lia.
Qed.

(** [binary_round] of a number of magnitude at most [2^K]. *)
Lemma binary_round_below K s m e :
  -149 <= K <= 127 -> e <= K -> Zpos m <= 2 ^ (K - e) ->
  rounds_below K s (binary_round prec32 emax32 s m e).
Proof.
  intros HK He Hm. unfold binary_round.
  pose proof (shl_align_spec m e (fexp prec32 emax32 (Zpos (digits2_pos m) + e)))
    as [Hshl Hstay].
  destruct (shl_align m e (fexp prec32 emax32 (Zpos (digits2_pos m) + e)))
    as [mz ez]. cbn [fst snd] in *.
  pose proof (digits_below_pow2 K (Zpos m) e ltac:(lia) He Hm) as Hd.
  change (Zdigits2 (Zpos m)) with (Zpos (digits2_pos m)) in Hd.
  rewrite fexp32_eq in *.
  apply binary_round_aux_below; try lia.
  cbn [upper_edge]. right.
  destruct (Z.lt_ge_cases (Z.max (Zpos (digits2_pos m) + e - 24) (-149)) e)
    as [Hlt|Hge].
  - set (f := Z.max (Zpos (digits2_pos m) + e - 24) (-149)) in *.
    destruct (Hshl Hlt) as [-> ->].
    pose proof (below_pow2_shift K (Zpos m) e (e - f) ltac:(lia) He Hm) as H.
    replace (e - (e - f)) with f in H by lia. exact H.
  - destruct (Hstay Hge) as [-> ->]. auto.
Qed.

Lemma binary_normalize_small K M e szero :
  -149 <= K <= 127 -> e <= K -> Z.abs M <= 2 ^ (K - e) ->
  f32_small K (binary_normalize prec32 emax32 M e szero).
Proof.
  intros HK He HM. unfold binary_normalize.
  destruct M as [|m|m]; cbn [f32_small]; [exact I| |].
  - pose proof (binary_round_below K false m e HK He ltac:(lia)) as H.
    destruct (binary_round prec32 emax32 false m e); cbn in *; tauto.
  - pose proof (binary_round_below K true m e HK He ltac:(lia)) as H.
    destruct (binary_round prec32 emax32 true m e); cbn in *; tauto.
Qed.

(** *** Addition and subtraction of small numbers *)

Lemma f32_small_mono K K' x : K <= K' -> f32_small K x -> f32_small K' x.
Proof.
  intros HK. destruct x; cbn [f32_small]; auto.
  now apply below_pow2_mono.
Qed.

Lemma aligned_mantissa_below K m e ez :
  ez <= e -> e <= K -> Zpos m <= 2 ^ (K - e) ->
  Zpos (fst (shl_align m e ez)) <= 2 ^ (K - ez).
Proof.
  intros Hez He Hm.
  pose proof (shl_align_spec m e ez) as [Hshl Hstay]. cbn zeta in *.
  destruct (Z.eq_dec ez e) as [->|Hne].
  - destruct (Hstay ltac:(lia)) as [-> _]. exact Hm.
  - destruct (Hshl ltac:(lia)) as [-> _].
    pose proof (below_pow2_shift K (Zpos m) e (e - ez) ltac:(lia) He Hm) as [_ H].
    replace (K - (e - (e - ez))) with (K - ez) in H by lia. exact H.
Qed.

Lemma f32_add_small K x y :
  -149 <= K <= 126 -> f32_small K x -> f32_small K y ->
  f32_small (K + 1) (x + y)%f32 /\ f32_small (K + 1) (x - y)%f32.
Proof.
  intros HK Hx Hy.
  destruct x as [sx|sx| |sx mx ex], y as [sy|sy| |sy my ey];
    cbn [f32_small] in Hx, Hy; try contradiction.
  - split; [destruct sx, sy | destruct sx, sy]; exact I.
  - split; cbn; apply (below_pow2_mono K); (lia || assumption).
  - split; cbn; apply (below_pow2_mono K); (lia || assumption).
  - destruct Hx as [Hx|[Hex Hmx]]; [discriminate|].
    destruct Hy as [Hy|[Hey Hmy]]; [discriminate|].
    pose proof (aligned_mantissa_below K mx ex (Z.min ex ey) ltac:(lia) Hex Hmx) as Ha.
    pose proof (aligned_mantissa_below K my ey (Z.min ex ey) ltac:(lia) Hey Hmy) as Hb.
    assert (Hsum : 2 ^ (K + 1 - Z.min ex ey) = 2 * 2 ^ (K - Z.min ex ey)).
    { replace (K + 1 - Z.min ex ey) with (Z.succ (K - Z.min ex ey)) by lia.
      apply Z.pow_succ_r. lia. }
    unfold f32_add, f32_sub. cbn [SFadd SFsub].
    change (IntDef.Z.min ex ey) with (Z.min ex ey).
    split; apply binary_normalize_small; try lia;
      rewrite Hsum; destruct sx, sy; cbn [cond_Zopp]; lia.
Qed.

(** *** Shape, magnitude and canonicity of a rounded result *)

Lemma shr_fexp_nonneg mx ex lx :
  0 <= mx -> 0 <= shr_m (fst (shr_fexp prec32 emax32 mx ex lx)).
Proof.
  intros Hmx.
  pose proof (shr_fexp_spec mx ex lx Hmx) as [Hstay Hshift]. cbv zeta in *.
  destruct (Z.le_gt_cases (fexp prec32 emax32 (Zdigits2 mx + ex) - ex) 0) as [Hn|Hn].
  - destruct (Hstay Hn) as (-> & _). exact Hmx.
  - destruct (Hshift Hn) as (-> & _). apply Z.div_pos; [exact Hmx|].
    apply pow2_pos. lia.
Qed.

(** The pieces of [binary_round_aux] on a mantissa [0 <= mx]. *)
Lemma binary_round_aux_shape s mx ex lx :
  0 <= mx ->
  let r := binary_round_aux prec32 emax32 s mx ex lx in
  r = S754_zero s \/ r = S754_infinity s \/ exists m e, r = S754_finite s m e.
Proof.
  intros Hmx. unfold binary_round_aux.
  pose proof (shr_fexp_nonneg mx ex lx Hmx) as H1.
  destruct (shr_fexp prec32 emax32 mx ex lx) as [mrs1 e1]. cbn [fst] in H1.
  pose proof (round_nearest_even_bounds (shr_m mrs1) (loc_of_shr_record mrs1))
    as [[Hlo _] _].
  set (m2 := round_nearest_even (shr_m mrs1) (loc_of_shr_record mrs1)) in *.
  pose proof (shr_fexp_nonneg m2 e1 loc_Exact ltac:(lia)) as H3.
  destruct (shr_fexp prec32 emax32 m2 e1 loc_Exact) as [mrs3 e3]. cbn [fst] in H3.
  destruct (shr_m mrs3) as [|m|m]; [auto| |lia].
  destruct (Z.leb e3 (emax32 - prec32)); eauto.
Qed.

(** A shift keeps the magnitude [digits + exponent] of a mantissa that does
    not vanish, and ends on the exponent of the format. *)
Lemma shr_fexp_magnitude m e l :
  0 < m -> e <= fexp prec32 emax32 (Zdigits2 m + e) ->
  let mrs := fst (shr_fexp prec32 emax32 m e l) in
  let e' := snd (shr_fexp prec32 emax32 m e l) in
  e' = fexp prec32 emax32 (Zdigits2 m + e) /\
  (-148 <= Zdigits2 m + e ->
   0 < shr_m mrs /\ Zdigits2 (shr_m mrs) + e' = Zdigits2 m + e).
Proof.
  intros Hm Hpre.
  pose proof (shr_fexp_spec m e l ltac:(lia)) as [Hstay Hshift]. cbv zeta in *.
  set (n := fexp prec32 emax32 (Zdigits2 m + e) - e) in *.
  destruct (Z.le_gt_cases n 0) as [Hn|Hn].
  - destruct (Hstay Hn) as (-> & -> & _). split; [lia|]. auto.
  - destruct (Hshift Hn) as (-> & -> & _). split; [lia|].
    intros Hg. subst n. rewrite fexp32_eq in *.
    assert (Hlt : 0 <= Z.max (Zdigits2 m + e - 24) (-149) - e < Zdigits2 m) by lia.
    rewrite Zdigits2_div_pow2 by lia. split; [|lia].
    apply Z.div_str_pos. split; [apply pow2_pos; lia|].
    pose proof (Zdigits2_bounds m Hm) as [Hlo _].
    assert (2 ^ (Z.max (Zdigits2 m + e - 24) (-149) - e) <= 2 ^ (Zdigits2 m - 1))
      by (apply Z.pow_le_mono_r; lia).
    lia.
Qed.

Lemma fexp32_mono a b : a <= b ->
  fexp prec32 emax32 a <= fexp prec32 emax32 b.
Proof. intros. rewrite !fexp32_eq. lia. Qed.

(** What [binary_round_aux] returns on an exact mantissa at or below the
    exponent of the format: the result is canonical, and its magnitude is
    not less than the magnitude of the input. *)
Lemma binary_round_aux_exact s mx ex :
  0 < mx -> ex <= fexp prec32 emax32 (Zdigits2 mx + ex) ->
  match binary_round_aux prec32 emax32 s mx ex loc_Exact with
  | S754_zero s' => s' = s /\ Zdigits2 mx + ex < -148
  | S754_infinity s' => s' = s
  | S754_finite s' m e =>
      s' = s /\ canonical_mantissa prec32 emax32 m e = true /\
      (-148 <= Zdigits2 mx + ex -> Zdigits2 mx + ex <= Zdigits2 (Zpos m) + e)
  | S754_nan => False
  end.
Proof.
  intros Hmx Hpre. unfold binary_round_aux.
  pose proof (shr_fexp_magnitude mx ex loc_Exact Hmx Hpre) as [He1 Hmag1].
  pose proof (shr_fexp_nonneg mx ex loc_Exact ltac:(lia)) as H1.
  destruct (shr_fexp prec32 emax32 mx ex loc_Exact) as [mrs1 e1].
  cbn [fst snd] in *.
  pose proof (round_nearest_even_bounds (shr_m mrs1) (loc_of_shr_record mrs1))
    as [[Hlo Hhi] _].
  set (m2 := round_nearest_even (shr_m mrs1) (loc_of_shr_record mrs1)) in *.
  set (g := Zdigits2 mx + ex) in *.
  assert (He1' : -149 <= e1) by (rewrite He1, fexp32_eq; lia).
  destruct (Z.eq_dec m2 0) as [Hz|Hnz].
  - (* everything was shifted out *)
    assert (Hg : g < -148) by (destruct (Z.lt_ge_cases g (-148)); [assumption|];
                               destruct Hmag1; lia).
    rewrite Hz.
    destruct (shr_fexp prec32 emax32 0 e1 loc_Exact) as [mrs3 e3] eqn:E3.
    pose proof (shr_fexp_spec 0 e1 loc_Exact ltac:(lia)) as [Hstay Hshift].
    rewrite E3 in Hstay, Hshift. cbn [fst snd] in *.
    assert (Hm3 : shr_m mrs3 = 0).
    { destruct (Z.le_gt_cases (fexp prec32 emax32 (Zdigits2 0 + e1) - e1) 0) as [Hn|Hn].
      - now destruct (Hstay Hn).
      - destruct (Hshift Hn) as (-> & _). apply Z.div_0_l.
        pose proof (pow2_pos (fexp prec32 emax32 (Zdigits2 0 + e1) - e1)). lia. }
    rewrite Hm3. auto.
  - assert (Hm2 : 0 < m2) by lia.
    assert (Hpre2 : e1 <= fexp prec32 emax32 (Zdigits2 m2 + e1)).
    { destruct (Z.lt_ge_cases g (-148)) as [Hsmall|Hbig].
      - rewrite He1, !fexp32_eq. lia.
      - destruct (Hmag1 Hbig) as [Hpos Hg1].
        rewrite He1 at 1. apply fexp32_mono.
        pose proof (Zdigits2_le (shr_m mrs1) m2 ltac:(lia)). lia. }
    pose proof (shr_fexp_magnitude m2 e1 loc_Exact Hm2 Hpre2) as [He3 Hmag3].
    pose proof (Zdigits2_pos m2 Hm2) as Hd2.
    destruct (shr_fexp prec32 emax32 m2 e1 loc_Exact) as [mrs3 e3].
    cbn [fst snd] in *.
    destruct (Hmag3 ltac:(lia)) as [Hpos3 Hg3].
    destruct (shr_m mrs3) as [|m|m] eqn:Em3; [lia| |lia].
    assert (Hcanon : canonical_mantissa prec32 emax32 m e3 = true).
    { unfold canonical_mantissa. apply Z.eqb_eq.
      change (Zpos (digits2_pos m)) with (Zdigits2 (Zpos m)).
      rewrite Hg3. symmetry. exact He3. }
    destruct (Z.leb e3 (emax32 - prec32)); [|reflexivity].
    split; [reflexivity|]. split; [exact Hcanon|].
    intros Hbig. destruct (Hmag1 Hbig) as [Hpos Hg1].
    pose proof (Zdigits2_le (shr_m mrs1) m2 ltac:(lia)). lia.
Qed.

Lemma Zdigits2_mul_pow2 m k :
  0 < m -> 0 <= k -> Zdigits2 (m * 2 ^ k) = Zdigits2 m + k.
Proof.
  intros Hm Hk.
  pose proof (Zdigits2_bounds m Hm) as [Hlo Hhi].
  pose proof (Zdigits2_pos m Hm) as Hd.
  pose proof (pow2_pos k Hk) as Hp.
  apply Zdigits2_unique; [lia|]. split.
  - replace (Zdigits2 m + k - 1) with (Zdigits2 m - 1 + k) by lia.
    rewrite pow2_split by lia. apply Z.mul_le_mono_nonneg_r; lia.
  - rewrite pow2_split by lia. apply Z.mul_lt_mono_pos_r; lia.
Qed.

Lemma Zdigits2_pow2 k : 0 <= k -> Zdigits2 (2 ^ k) = k + 1.
Proof.
  intros Hk. apply Zdigits2_unique; [lia|].
  replace (k + 1 - 1) with k by lia. split; [lia|].
  apply Z.pow_lt_mono_r; lia.
Qed.

(** [binary_round] returns a canonical number whose magnitude is not less
    than the magnitude of its argument. *)
Lemma binary_round_exact s m e :
  match binary_round prec32 emax32 s m e with
  | S754_zero s' => s' = s /\ Zdigits2 (Zpos m) + e < -148
  | S754_infinity s' => s' = s
  | S754_finite s' m' e' =>
      s' = s /\ canonical_mantissa prec32 emax32 m' e' = true /\
      (-148 <= Zdigits2 (Zpos m) + e ->
       Zdigits2 (Zpos m) + e <= Zdigits2 (Zpos m') + e')
  | S754_nan => False
  end.
Proof.
  unfold binary_round.
  pose proof (shl_align_spec m e (fexp prec32 emax32 (Zpos (digits2_pos m) + e)))
    as [Hshl Hstay].
  destruct (shl_align m e (fexp prec32 emax32 (Zpos (digits2_pos m) + e)))
    as [mz ez]. cbn [fst snd] in *.
  change (Zpos (digits2_pos m)) with (Zdigits2 (Zpos m)) in *.
  set (g := Zdigits2 (Zpos m) + e) in *.
  assert (Hg : Zdigits2 (Zpos mz) + ez = g /\ ez <= fexp prec32 emax32 g).
  { destruct (Z.lt_ge_cases (fexp prec32 emax32 g) e) as [Hlt|Hge].
    - destruct (Hshl Hlt) as [-> ->].
      rewrite Zdigits2_mul_pow2 by lia. subst g. lia.
    - destruct (Hstay Hge) as [-> ->]. subst g. lia. }
  destruct Hg as [Hg Hpre].
  pose proof (binary_round_aux_exact s (Zpos mz) ez ltac:(lia)) as H.
  rewrite Hg in H. apply H. exact Hpre.
Qed.

(** *** The steps of the squashing transform *)

(** [1 + e] for a finite positive [e] is at least one. *)
Lemma one_plus_positive m ex :
  let s := (1.0 + S754_finite false m ex)%f32 in
  s = S754_infinity false \/
  exists ms es, s = S754_finite false ms es /\ 1 <= Zdigits2 (Zpos ms) + es.
Proof.
  unfold f32_add. cbn [SFadd cond_Zopp].
  change (IntDef.Z.min (-23) ex) with (Z.min (-23) ex).
  set (ez := Z.min (-23) ex).
  pose proof (shl_align_spec 8388608 (-23) ez) as [Hshl Hstay]. cbv zeta in *.
  set (a := fst (shl_align 8388608 (-23) ez)) in *.
  set (b := fst (shl_align m ex ez)) in *.
  change (IntDef.Z.add (Zpos a) (Zpos b)) with (Zpos (a + b)).
  cbn [binary_normalize].
  assert (Ha : Zdigits2 (Zpos a) + ez = 1).
  { destruct (Z.eq_dec ez (-23)) as [Heq|Hne].
    - destruct (Hstay ltac:(lia)) as [-> _]. rewrite Heq. reflexivity.
    - destruct (Hshl ltac:(lia)) as [-> _].
      rewrite Zdigits2_mul_pow2 by lia. change (Zdigits2 8388608) with 24. lia. }
  assert (Hab : 1 <= Zdigits2 (Zpos (a + b)) + ez).
  { pose proof (Zdigits2_le (Zpos a) (Zpos (a + b)) ltac:(lia)). lia. }
  pose proof (binary_round_exact false (a + b) ez) as H.
  destruct (binary_round prec32 emax32 false (a + b) ez) as [s'|s'| |s' ms es].
  - destruct H as [_ H]. lia.
  - left. now subst s'.
  - contradiction.
  - right. destruct H as (-> & _ & H). exists ms, es. split; [reflexivity|]. lia.
Qed.

Lemma new_location_exact n r :
  (r = 0 -> new_location n r = loc_Exact) /\
  (r <> 0 -> exists c, new_location n r = loc_Inexact c).
Proof.
  unfold new_location, new_location_even, new_location_odd.
  destruct (IntDef.Z.even n); cbv beta;
    change (IntDef.Z.eqb r 0) with (Z.eqb r 0);
    (split; intros Hr; [subst r; reflexivity|]);
    apply Z.eqb_neq in Hr; rewrite Hr; eexists; reflexivity.
Qed.

(** [2 / s] for a finite [s] of magnitude at least one is at most two. *)
Lemma two_over_at_least_one ms es :
  1 <= Zdigits2 (Zpos ms) + es ->
  rounds_below 1 false
    (2.0 / S754_finite false ms es)%f32.
Proof.
  intros Hg. unfold f32_div. cbn [SFdiv xorb]. unfold SFdiv_core_binary.
  std_Z. change (Zdigits2 8388608) with 24.
  set (ds := Zdigits2 (Zpos ms)) in *.
  set (e' := Z.min (fexp prec32 emax32 (24 + -22 - (ds + es))) (-22 - es)).
  assert (He' : e' <= -23 /\ e' <= -22 - es)
    by (subst e'; rewrite fexp32_eq; lia).
  set (sh := -22 - es - e').
  assert (Hsh : 0 <= sh) by (subst sh; lia).
  set (m' := match sh with
             | 0 => 8388608
             | Zpos _ => Z.shiftl 8388608 sh
             | Zneg _ => 0
             end).
  assert (Hm' : m' = 2 ^ (1 - e' - es)).
  { replace (1 - e' - es) with (23 + sh) by (subst sh; lia).
    rewrite pow2_split by lia. subst m'.
    destruct sh as [|p|p] eqn:Esh.
    - reflexivity.
    - apply Z.shiftl_mul_pow2. lia.
    - lia. }
  clearbody m'.
  pose proof (Z_div_mod_eq_full m' (Zpos ms)) as Hdm.
  pose proof (Z.mod_pos_bound m' (Zpos ms) ltac:(lia)) as Hr.
  unfold Z.div, Z.modulo in Hdm, Hr.
  destruct (Z.div_eucl m' (Zpos ms)) as [q r].
  assert (Hq : 0 <= q).
  { assert (0 <= m') by (rewrite Hm'; apply Z.pow_nonneg; lia). nia. }
  pose proof (Zdigits2_bounds (Zpos ms) ltac:(lia)) as [Hlo _]. fold ds in Hlo.
  assert (Hpt : 0 < 2 ^ (1 - e')) by (apply pow2_pos; lia).
  (* the quotient, and the next integer when it is inexact, are under 2^(1-e') *)
  assert (Hbound : q <= 2 ^ (1 - e') /\ (r <> 0 -> q + 1 <= 2 ^ (1 - e'))).
  { destruct (Z.le_gt_cases es 0) as [Hes|Hes].
    - assert (Hms : 2 ^ (- es) <= Zpos ms).
      { assert (2 ^ (- es) <= 2 ^ (ds - 1)) by (apply Z.pow_le_mono_r; lia). lia. }
      assert (Hsplit : m' = 2 ^ (1 - e') * 2 ^ (- es)).
      { rewrite Hm', <- pow2_split by lia. f_equal; lia. }
      pose proof (pow2_pos (- es) ltac:(lia)) as Hpe.
      split; [|intros Hnz]; nia.
    - assert (Hle : m' <= 2 ^ (1 - e')).
      { rewrite Hm'. apply Z.pow_le_mono_r; lia. }
      split; [|intros Hnz]; nia. }
  destruct Hbound as [Hqle Hqlt].
  apply binary_round_aux_below; try lia.
  destruct (Z.eq_dec r 0) as [Hz|Hnz].
  - rewrite (proj1 (new_location_exact (Zpos ms) r) Hz).
    cbn [upper_edge]. right. split; [lia|]. exact Hqle.
  - destruct (proj2 (new_location_exact (Zpos ms) r) Hnz) as [c ->].
    cbn [upper_edge]. split; [lia|]. auto.
Qed.

Lemma compare_cont_Eq x y : PosDef.Pos.compare_cont Eq x y = Pos.compare x y.
Proof. reflexivity. Qed.

Lemma f32_le_same_exponent s m n e :
  Zpos m <= Zpos n ->
  f32_le (S754_finite true n e) (S754_finite s m e) = true /\
  f32_le (S754_finite s m e) (S754_finite false n e) = true.
Proof.
  intros Hle. unfold f32_le, SFleb, SFcompare.
  change (IntDef.Z.compare e e) with (Z.compare e e).
  rewrite Z.compare_refl.
  rewrite (compare_cont_Eq m n), (compare_cont_Eq n m).
  rewrite (Pos.compare_antisym m n).
  apply Pos2Z.pos_le_pos, Pos.compare_le_iff in Hle.
  destruct s; destruct (Pos.compare m n); cbn; auto; congruence.
Qed.

Lemma f32_le_lower_exponent s m n e e' :
  e < e' ->
  f32_le (S754_finite true n e') (S754_finite s m e) = true /\
  f32_le (S754_finite s m e) (S754_finite false n e') = true.
Proof.
  intros Hlt. unfold f32_le, SFleb, SFcompare.
  change (IntDef.Z.compare e' e) with (Z.compare e' e).
  change (IntDef.Z.compare e e') with (Z.compare e e').
  rewrite (proj2 (Z.compare_lt_iff e e') Hlt).
  rewrite (proj2 (Z.compare_gt_iff e' e) Hlt).
  destruct s; auto.
Qed.

(** A canonical number of magnitude at most one compares inside [-1, 1]. *)
Lemma unit_interval_compare s m e :
  canonical_mantissa prec32 emax32 m e = true ->
  below_pow2 0 (Zpos m) e ->
  f32_le (-1.0)%f32 (S754_finite s m e) = true /\
  f32_le (S754_finite s m e) (1.0)%f32 = true.
Proof.
  intros Hcanon [Hz|[He Hm]]; [discriminate|].
  unfold canonical_mantissa in Hcanon. apply Z.eqb_eq in Hcanon.
  rewrite fexp32_eq in Hcanon.
  change (Zpos (digits2_pos m)) with (Zdigits2 (Zpos m)) in Hcanon.
  pose proof (Zdigits2_bounds (Zpos m) ltac:(lia)) as [Hlo _].
  destruct (Z.lt_trichotomy e (-23)) as [Hlt|[Heq|Hgt]].
  - now apply f32_le_lower_exponent.
  - subst e. apply f32_le_same_exponent. exact Hm.
  - exfalso.
    assert (Hd : Zdigits2 (Zpos m) - 1 = 23) by lia. rewrite Hd in Hlo.
    assert (2 ^ (0 - e) <= 2 ^ 22) by (apply Z.pow_le_mono_r; lia).
    assert (2 ^ 22 < 2 ^ 23) by (apply Z.pow_lt_mono_r; lia).
    lia.
Qed.

(** [d - 1] for [0 <= d <= 2] lies in [-1, 1]. *)
Lemma minus_one_in_unit_interval d :
  rounds_below 1 false d ->
  let v := (d - 1.0)%f32 in
  f32_le (-1.0)%f32 v = true /\ f32_le v (1.0)%f32 = true.
Proof.
  destruct d as [sd|sd| |sd md ed]; cbn [rounds_below]; try contradiction.
  - intros ->. split; reflexivity.
  - intros (-> & [Hz|[Hed Hmd]] & _); [discriminate|].
    unfold f32_sub. cbn [SFsub cond_Zopp]. std_Z.
    set (ez := Z.min ed (-23)).
    pose proof (aligned_mantissa_below 1 md ed ez ltac:(lia) Hed Hmd) as Ha.
    pose proof (shl_align_spec 8388608 (-23) ez) as [Hshl Hstay]. cbv zeta in *.
    set (a := fst (shl_align md ed ez)) in *.
    set (b := fst (shl_align 8388608 (-23) ez)) in *.
    assert (Hb : Zpos b = 2 ^ (0 - ez)).
    { destruct (Z.eq_dec ez (-23)) as [Heq|Hne].
      - destruct (Hstay ltac:(lia)) as [-> _]. rewrite Heq. reflexivity.
      - destruct (Hshl ltac:(lia)) as [-> _].
        change 8388608 with (2 ^ 23). rewrite <- pow2_split by lia.
        f_equal; lia. }
    assert (Htwice : 2 ^ (1 - ez) = 2 * 2 ^ (0 - ez)).
    { replace (1 - ez) with (Z.succ (0 - ez)) by lia. apply Z.pow_succ_r. lia. }
    assert (HM : Z.abs (Zpos a - Zpos b) <= 2 ^ (0 - ez)) by lia.
    destruct (Zpos a - Zpos b) as [|p|p] eqn:EM; cbn [binary_normalize].
    + split; reflexivity.
    + pose proof (binary_round_below 0 false p ez ltac:(lia) ltac:(lia) ltac:(lia)) as Hbelow.
      pose proof (binary_round_exact false p ez) as Hexact.
      destruct (binary_round prec32 emax32 false p ez) as [s'|s'| |s' m e];
        cbn [rounds_below] in Hbelow; try contradiction.
      * subst s'. split; reflexivity.
      * destruct Hbelow as (_ & Hb0 & _). destruct Hexact as (_ & Hcanon & _).
        now apply unit_interval_compare.
    + pose proof (binary_round_below 0 true p ez ltac:(lia) ltac:(lia) ltac:(lia)) as Hbelow.
      pose proof (binary_round_exact true p ez) as Hexact.
      destruct (binary_round prec32 emax32 true p ez) as [s'|s'| |s' m e];
        cbn [rounds_below] in Hbelow; try contradiction.
      * subst s'. split; reflexivity.
      * destruct Hbelow as (_ & Hb0 & _). destruct Hexact as (_ & Hcanon & _).
        now apply unit_interval_compare.
Qed.

Lemma f32_mul_not_nan K x s m e :
  f32_small K x -> (x * S754_finite s m e)%f32 <> S754_nan.
Proof.
  destruct x as [sx|sx| |sx mx ex]; cbn [f32_small]; try contradiction;
    intros _; unfold f32_mul; cbn [SFmul]; [discriminate|].
  pose proof (binary_round_aux_shape (xorb sx s) (Zpos (mx * m)) (ex + e) loc_Exact
                ltac:(lia)) as H.
  cbv zeta in H. std_Z.
  destruct H as [H|[H|(m' & e' & H)]]; rewrite H; discriminate.
Qed.

(** The squashing transform stays in [-1, 1] whenever the exponential is a
    number that is not negative. *)
Lemma squash_in_unit_interval (expf : float32 -> float32) x :
  (forall y, y <> S754_nan -> f32_le (0.0)%f32 (expf y) = true) ->
  x <> S754_nan ->
  let v := (2.0 / (1.0 + expf x) - 1.0)%f32 in
  f32_le (-1.0)%f32 v = true /\ f32_le v (1.0)%f32 = true.
Proof.
  intros Hexp Hx. specialize (Hexp x Hx).
  destruct (expf x) as [se|se| |se me ee].
  - destruct se; split; reflexivity.
  - destruct se; [discriminate Hexp|]. split; reflexivity.
  - discriminate Hexp.
  - destruct se; [discriminate Hexp|].
    destruct (one_plus_positive me ee) as [Hs|(ms & es & Hs & Hg)];
      cbv zeta in *; rewrite Hs.
    + split; reflexivity.
    + apply minus_one_in_unit_interval. now apply two_over_at_least_one.
Qed.

(** *** Sums of table entries *)

Lemma f32_smallb_spec K x : f32_smallb K x = true -> f32_small K x.
Proof.
  destruct x as [s|s| |s m e]; cbn [f32_smallb f32_small];
    try discriminate; [auto|].
  intros H. apply andb_true_iff in H as [He Hm].
  apply Z.leb_le in He, Hm. right. auto.
Qed.

Lemma fold_add_small (w : Z -> float32) l : forall K acc,
  -1 <= K -> K + Z.of_nat (length l) <= 127 ->
  f32_small K acc ->
  (forall sq, In sq l -> f32_small (-1) (w sq)) ->
  f32_small (K + Z.of_nat (length l))
    (fold_left (fun result idx => (result + w idx)%f32) l acc).
Proof.
  induction l as [|sq l IH]; intros K acc HK Hlen Hacc Hw.
  - cbn [fold_left length]. now rewrite Z.add_0_r.
  - cbn [fold_left]. cbn [length] in *.
    replace (K + Z.of_nat (S (length l))) with (K + 1 + Z.of_nat (length l)) by lia.
    apply IH; [lia | lia | | intros sq' Hin; apply Hw; now right].
    apply f32_add_small; [lia | exact Hacc |].
    apply (f32_small_mono (-1)); [lia|]. apply Hw. now left.
Qed.

(** ** The stored value *)

Lemma tables_small :
  table_small kPawns = true /\ table_small kKnights = true /\
  table_small kBishops = true /\ table_small kRooks = true /\
  table_small kQueens = true /\ table_small kKings = true /\
  table_small kKingsEndgame = true.
Proof. vm_compute. repeat split. Qed.

Lemma IterateBits_filter plane :
  IterateBits plane = filter (Z.testbit plane) squares.
Proof. reflexivity. Qed.

Lemma IterateBits_length plane : (length (IterateBits plane) <= 64)%nat.
Proof.
  rewrite IterateBits_filter.
  etransitivity; [apply filter_length_le|]. apply Nat.le_refl.
Qed.

(** The indices produced are squares of the board. *)
Lemma IterateBits_squares plane sq :
  In sq (IterateBits plane) -> In sq squares /\ Z.testbit plane sq = true.
Proof.
  intros Hin. rewrite IterateBits_filter in Hin. now apply filter_In in Hin.
Qed.

Lemma fold_add_small_64 (w : Z -> float32) l :
  (length l <= 64)%nat ->
  (forall sq, In sq l -> f32_small (-1) (w sq)) ->
  f32_small 63 (fold_left (fun result idx => (result + w idx)%f32) l (0.0)%f32).
Proof.
  intros Hlen Hw.
  apply (f32_small_mono (-1 + Z.of_nat (length l))); [lia|].
  apply fold_add_small; [lia | lia | exact I | exact Hw].
Qed.

(** A dot product adds at most 64 weights of magnitude at most [1/2]. *)
Lemma DotProduct_small plane weights :
  table_small weights = true -> f32_small 63 (DotProduct plane weights).
Proof.
  intros Hsmall. unfold table_small in Hsmall.
  rewrite forallb_forall in Hsmall.
  unfold DotProduct.
  apply (fold_add_small_64 (fun idx => nth (Z.to_nat idx) weights S754_nan)).
  - apply IterateBits_length.
  - intros sq Hin. apply f32_smallb_spec, Hsmall.
    now apply (IterateBits_squares plane).
Qed.

Lemma squares_range sq : In sq squares -> 0 <= sq < 64.
Proof.
  assert (Hsq : squares = map Z.of_nat (seq 0 64)) by reflexivity.
  rewrite Hsq. intros Hin. apply in_map_iff in Hin as (n & <- & Hn).
  apply in_seq in Hn. lia.
Qed.

(** Section 3: the indices used on a piece-square table lie in [0, 64),
    inside every table. *)
Lemma DotProduct_index_in_table plane sq :
  In sq (IterateBits plane) ->
  0 <= sq < 64 /\
  Forall (fun weights => (Z.to_nat sq < length weights)%nat)
    [kPawns; kKnights; kBishops; kRooks; kQueens; kKings; kKingsEndgame].
Proof.
  intros Hin. apply IterateBits_squares in Hin as [Hin _].
  apply squares_range in Hin. split; [exact Hin|].
  repeat (apply Forall_cons;
          [match goal with
           | |- (_ < length ?w)%nat => change (length w) with 64%nat
           end; lia|]).
  apply Forall_nil.
Qed.

Lemma add_DotProduct_small K q plane weights :
  63 <= K <= 126 -> table_small weights = true -> f32_small K q ->
  f32_small (K + 1) (q + DotProduct plane weights)%f32.
Proof.
  intros HK Hw Hq. apply f32_add_small; [lia | exact Hq |].
  apply (f32_small_mono 63); [lia|]. now apply DotProduct_small.
Qed.

Lemma sub_DotProduct_small K q plane weights :
  63 <= K <= 126 -> table_small weights = true -> f32_small K q ->
  f32_small (K + 1) (q - DotProduct plane weights)%f32.
Proof.
  intros HK Hw Hq. apply f32_add_small; [lia | exact Hq |].
  apply (f32_small_mono 63); [lia|]. now apply DotProduct_small.
Qed.

(** The value of a position is the squashing transform of a raw score that
    is a finite number or a zero. *)
Lemma position_value_squash expf pl :
  exists q, f32_small 75 q /\
            position_value expf pl = (2.0 / (1.0 + expf (q * -10.0)) - 1.0)%f32.
Proof.
  destruct tables_small as (Hp & Hn & Hb & Hr & Hq & Hk & Hke).
  unfold position_value. cbv zeta.
  eexists. split; [|reflexivity].
  assert (Hking : table_small
            (if ((pl 4%nat =? 0) ||
                 ((pl 3%nat =? 0) && (NumBits (Z.lor (pl 1%nat) (pl 2%nat)) <=? 1))) &&
                ((pl 10%nat =? 0) ||
                 ((pl 9%nat =? 0) && (NumBits (Z.lor (pl 7%nat) (pl 8%nat)) <=? 1)))
             then kKingsEndgame else kKings) = true).
  { match goal with |- table_small (if ?b then _ else _) = true => destruct b end;
      assumption. }
  apply (sub_DotProduct_small 74); [lia | exact Hking |].
  apply (add_DotProduct_small 73); [lia | exact Hking |].
  apply (sub_DotProduct_small 72); [lia | exact Hq |].
  apply (add_DotProduct_small 71); [lia | exact Hq |].
  apply (sub_DotProduct_small 70); [lia | exact Hr |].
  apply (add_DotProduct_small 69); [lia | exact Hr |].
  apply (sub_DotProduct_small 68); [lia | exact Hb |].
  apply (add_DotProduct_small 67); [lia | exact Hb |].
  apply (sub_DotProduct_small 66); [lia | exact Hn |].
  apply (add_DotProduct_small 65); [lia | exact Hn |].
  apply (sub_DotProduct_small 64); [lia | exact Hp |].
  apply (add_DotProduct_small 63); [lia | exact Hp | exact I].
Qed.

(** *** Saturation *)

(** The round bit after [n] steps is bit [n - 1] of the mantissa. *)
Lemma iter_shr_1_round_bit mx r0 s0 p :
  0 <= mx ->
  shr_r (iter_pos shr_1 p {| shr_m := mx; shr_r := r0; shr_s := s0 |}) =
  Z.odd (mx / 2 ^ (Zpos p - 1)).
Proof.
  intros Hmx.
  pose (P := fun k mrs =>
    shr_m mrs = mx / 2 ^ k /\ (0 < k -> shr_r mrs = Z.odd (mx / 2 ^ (k - 1)))).
  assert (H : P (0 + Zpos p)
                (iter_pos shr_1 p {| shr_m := mx; shr_r := r0; shr_s := s0 |})).
  { apply iter_pos_invariant; [|lia|].
    - intros k [m r s] Hk [Hm _]. cbn [shr_m shr_r] in *.
      assert (Hp : 0 < 2 ^ k) by (apply Z.pow_pos_nonneg; lia).
      assert (Hm0 : 0 <= m) by (subst m; apply Z.div_pos; lia).
      rewrite shr_1_spec by assumption. unfold P. cbn [shr_m shr_r].
      split.
      + rewrite Z.pow_add_r, Z.pow_1_r by lia.
        subst m. now rewrite Z.div_div by lia.
      + intros _. replace (k + 1 - 1) with k by lia. now subst m.
    - unfold P. cbn [shr_m shr_r]. rewrite Z.pow_0_r, Z.div_1_r. split; [reflexivity|lia]. }
  destruct H as [_ H]. apply H. lia.
Qed.

(** Adding to 1 a number of at most [2^-26], an eighth of the last place
    of 1, returns 1. *)
Lemma one_plus_tiny m ex :
  below_pow2 (-26) (Zpos m) ex ->
  (1.0 + S754_finite false m ex)%f32 = (1.0)%f32.
Proof.
  intros [Hz|[Hex Hm]]; [discriminate|].
  unfold f32_add. cbn [SFadd cond_Zopp]. std_Z.
  rewrite Z.min_r by lia.
  pose proof (shl_align_spec 8388608 (-23) ex) as [Hshl _].
  pose proof (shl_align_spec m ex ex) as [_ Hstay]. cbv zeta in *.
  destruct (Hshl ltac:(lia)) as [Ha _]. destruct (Hstay ltac:(lia)) as [Hb _].
  rewrite Hb.
  set (a := fst (shl_align 8388608 (-23) ex)) in *.
  change (Zpos a + Zpos m) with (Zpos (a + m)). cbn [binary_normalize].
  set (n := -23 - ex) in *.
  assert (Hn : 3 <= n) by (subst n; lia).
  assert (Ha' : Zpos a = 2 ^ 23 * 2 ^ n) by exact Ha.
  assert (Hmn : Zpos m <= 2 ^ (n - 3)).
  { replace (n - 3) with (-26 - ex) by (subst n; lia). exact Hm. }
  assert (Hp3 : 2 ^ n = 8 * 2 ^ (n - 3)).
  { replace n with (3 + (n - 3)) at 1 by lia. now rewrite pow2_split by lia. }
  assert (Hp1 : 2 ^ n = 2 * 2 ^ (n - 1)).
  { replace n with (1 + (n - 1)) at 1 by lia. now rewrite pow2_split by lia. }
  assert (Hp2 : 2 ^ (n - 1) = 4 * 2 ^ (n - 3)).
  { replace (n - 1) with (2 + (n - 3)) at 1 by lia. now rewrite pow2_split by lia. }
  pose proof (pow2_pos (n - 3) ltac:(lia)) as Hpos.
  assert (Hdig : Zdigits2 (Zpos (a + m)) = 24 + n).
  { apply Zdigits2_unique; [lia|].
    replace (24 + n - 1) with (23 + n) by lia.
    rewrite !pow2_split by lia. change (2 ^ 24) with 16777216.
    change (2 ^ 23) with 8388608 in *. lia. }
  (* no alignment to the left: the exponent is below the one of the format *)
  unfold binary_round. std_Z.
  change (Zpos (digits2_pos (a + m))) with (Zdigits2 (Zpos (a + m))).
  rewrite Hdig.
  replace (fexp prec32 emax32 (24 + n + ex)) with (-23)
    by (rewrite fexp32_eq; subst n; lia).
  pose proof (shl_align_spec (a + m) ex (-23)) as [_ Hstay']. cbv zeta in Hstay'.
  destruct (Hstay' ltac:(lia)) as [Hmz Hez].
  destruct (shl_align (a + m) ex (-23)) as [mz ez]. cbn [fst snd] in *. subst mz ez.
  (* the first shift, by [n], leaves 2^23 with the round bit clear *)
  unfold binary_round_aux.
  assert (Hshift : shr_fexp prec32 emax32 (Zpos (a + m)) ex loc_Exact =
                   (iter_pos shr_1 (Z.to_pos n)
                      {| shr_m := Zpos (a + m); shr_r := false; shr_s := false |},
                    ex + n)).
  { unfold shr_fexp, shr. rewrite Hdig.
    replace (fexp prec32 emax32 (24 + n + ex) - ex) with n
      by (rewrite fexp32_eq; subst n; lia).
    cbn [shr_record_of_loc].
    destruct n as [|pn|pn]; try lia. reflexivity. }
  rewrite Hshift.
  pose proof (iter_shr_1_spec (Zpos (a + m)) false false (Z.to_pos n) ltac:(lia))
    as [Hm1 _]. cbv zeta in Hm1.
  pose proof (iter_shr_1_round_bit (Zpos (a + m)) false false (Z.to_pos n) ltac:(lia))
    as Hr1.
  rewrite Z2Pos.id in Hm1, Hr1 by lia.
  set (mrs1 := iter_pos shr_1 (Z.to_pos n)
                 {| shr_m := Zpos (a + m); shr_r := false; shr_s := false |}) in *.
  assert (Hq : Zpos (a + m) / 2 ^ n = 8388608).
  { symmetry. apply Z.div_unique with (r := Zpos m); [lia|].
    change (Zpos (a + m)) with (Zpos a + Zpos m). rewrite Ha'.
    change (2 ^ 23) with 8388608. lia. }
  assert (Hodd : Z.odd (Zpos (a + m) / 2 ^ (n - 1)) = false).
  { assert (Hq' : Zpos (a + m) / 2 ^ (n - 1) = 2 * 8388608).
    { symmetry. apply Z.div_unique with (r := Zpos m); [lia|].
      change (Zpos (a + m)) with (Zpos a + Zpos m). rewrite Ha', Hp1.
      change (2 ^ 23) with 8388608. lia. }
    rewrite Hq'. reflexivity. }
  rewrite Hq in Hm1. rewrite Hodd in Hr1.
  assert (Hrne : round_nearest_even (shr_m mrs1) (loc_of_shr_record mrs1) = 8388608).
  { destruct mrs1 as [m1 r1 s1]. cbn [shr_m shr_r] in *. subst m1 r1.
    destruct s1; reflexivity. }
  rewrite Hrne.
  replace (ex + n) with (-23) by (subst n; lia).
  reflexivity.
Qed.

(** Whatever the exponential, as long as its value at the argument reached
    on [winning_board] is at most [2^-26] and not negative, the stored value
    is exactly 1.0. *)
Lemma winning_board_saturates expf self :
  (let e := expf (raw_score kKings (plane_mask winning_board) * -10.0)%f32 in
   (exists s, e = S754_zero s) \/
   (exists m ex, e = S754_finite false m ex /\ below_pow2 (-26) (Zpos m) ex)) ->
  AddInput expf winning_board self = Returns (push_back self (1.0)%f32).
Proof.
  cbv zeta. intros He.
  rewrite AddInput_position_value by (simpl; lia).
  do 2 f_equal.
  assert (Hq : position_value expf (plane_mask winning_board) =
               (2.0 / (1.0 + expf (raw_score kKings (plane_mask winning_board) * -10.0))
                - 1.0)%f32) by reflexivity.
  rewrite Hq.
  destruct He as [[s ->]|(m & ex & -> & Hsmall)].
  - reflexivity.
  - now rewrite one_plus_tiny.
Qed.

(** *** The reference exponential *)

Lemma ExpModel_one_pos : 0 < ExpModel.one.
Proof. unfold ExpModel.one. apply Z.pow_pos_nonneg; unfold ExpModel.frac_bits; lia. Qed.

Lemma ExpModel_squarings_nonneg n : forall e, 0 <= e -> 0 <= ExpModel.squarings n e.
Proof.
  induction n as [|n IH]; intros e He; cbn [ExpModel.squarings]; [exact He|].
  apply IH. apply Z.div_pos; [apply Z.square_nonneg | apply ExpModel_one_pos].
Qed.

Lemma ExpModel_squarings_S n e :
  ExpModel.squarings (S n) e = ExpModel.squarings n (e * e / ExpModel.one).
Proof. reflexivity. Qed.

Lemma ExpModel_exp_fixed_nonneg x : 0 <= ExpModel.exp_fixed x.
Proof.
  unfold ExpModel.exp_fixed.
  rewrite ExpModel_squarings_S.
  apply ExpModel_squarings_nonneg.
  apply Z.div_pos; [apply Z.square_nonneg | apply ExpModel_one_pos].
Qed.

Lemma ExpModel_exp_zero s : ExpModel.exp (S754_zero s) = (1.0)%f32.
Proof. reflexivity. Qed.

(** The reference exponential of a number is a number that is not
    negative. *)
Lemma ExpModel_exp_nonneg x :
  x <> S754_nan -> f32_le (0.0)%f32 (ExpModel.exp x) = true.
Proof.
  intros Hx. destruct x as [s|s| |s m e]; [reflexivity | destruct s; reflexivity
                                           | contradiction |].
  unfold ExpModel.exp.
  destruct (89 * ExpModel.one <=? _); [reflexivity|].
  destruct (_ <=? -104 * ExpModel.one); [reflexivity|].
  pose proof (ExpModel_exp_fixed_nonneg
                (cond_Zopp s (Z.shiftl (Zpos m) (e + ExpModel.frac_bits)))) as H0.
  destruct (ExpModel.exp_fixed _) as [|p|p]; [reflexivity| |lia].
  cbn [binary_normalize].
  pose proof (binary_round_exact false p (- ExpModel.frac_bits)) as H.
  destruct (binary_round prec32 emax32 false p (- ExpModel.frac_bits))
    as [s'|s'| |s' m' e'].
  - destruct H as [-> _]. reflexivity.
  - subst s'. reflexivity.
  - contradiction.
  - destruct H as (-> & _). reflexivity.
Qed.

(** *** The stored value: the empty board and the range *)

Lemma GetQVal_push_back self v :
  Z.of_nat (length (q_ self)) < 2 ^ 31 ->
  GetQVal (push_back self v) (Z.of_nat (length (q_ self))) = Returns v.
Proof.
  intros Hsize.
  rewrite GetQVal_stored
    by (unfold push_back; cbn [q_]; rewrite ?length_app; cbn [length]; lia).
  unfold push_back. cbn [q_]. rewrite Nat2Z.id.
  now rewrite nth_middle.
Qed.

(** C5: when the twelve planes are all zero masks, the stored value is
    exactly 0.0, and [GetQVal] returns 0.0 for that slot, for every
    exponential with [exp (+-0) = 1]. *)
Theorem empty_board_value expf input self :
  (forall s, expf (S754_zero s) = (1.0)%f32) ->
  (12 <= length input)%nat ->
  (forall k, (k < 12)%nat -> plane_mask input k = 0) ->
  AddInput expf input self = Returns (push_back self (0.0)%f32) /\
  (Z.of_nat (length (q_ self)) < 2 ^ 31 ->
   GetQVal (push_back self (0.0)%f32) (Z.of_nat (length (q_ self))) =
   Returns (0.0)%f32).
Proof.
  intros Hexp Hlen Hzero.
  assert (Hv : position_value expf (plane_mask input) = (0.0)%f32).
  { rewrite (position_value_ext expf _ (fun _ => 0)) by exact Hzero.
    assert (Hq : position_value expf (fun _ => 0) =
                 (2.0 / (1.0 + expf (S754_zero true)) - 1.0)%f32) by reflexivity.
    rewrite Hq, Hexp. reflexivity. }
  rewrite AddInput_position_value, Hv by assumption.
  split; [reflexivity|]. apply GetQVal_push_back.
Qed.

Lemma empty_board_value_witness :
  AddInput ExpModel.exp empty_board NewComputation =
    Returns (push_back NewComputation (0.0)%f32) /\
  GetQVal (push_back NewComputation (0.0)%f32) 0 = Returns (0.0)%f32.
Proof.
  destruct (empty_board_value ExpModel.exp empty_board NewComputation)
    as [Hadd Hget].
  - exact ExpModel_exp_zero.
  - simpl. lia.
  - intros k Hk. do 12 (destruct k as [|k]; [reflexivity|]). lia.
  - split; [exact Hadd|]. apply Hget. simpl. lia.
Defined.

(** C6, as amended: on every input of twelve planes or more the stored
    value [v] satisfies [-1 <= v <= 1], both bounds included, for every
    exponential whose value at a number is a number that is not negative. *)
Theorem value_in_closed_interval expf input self :
  (forall x, x <> S754_nan -> f32_le (0.0)%f32 (expf x) = true) ->
  (12 <= length input)%nat ->
  exists v,
    AddInput expf input self = Returns (push_back self v) /\
    f32_le (-1.0)%f32 v = true /\ f32_le v (1.0)%f32 = true.
Proof.
  intros Hexp Hlen.
  rewrite AddInput_position_value by assumption.
  eexists. split; [reflexivity|].
  destruct (position_value_squash expf (plane_mask input)) as (q & Hq & ->).
  apply squash_in_unit_interval; [exact Hexp|].
  now apply (f32_mul_not_nan 75).
Qed.

Lemma value_in_closed_interval_witness :
  exists v,
    AddInput ExpModel.exp winning_board NewComputation =
      Returns (push_back NewComputation v) /\
    f32_le (-1.0)%f32 v = true /\ f32_le v (1.0)%f32 = true.
Proof.
  apply (value_in_closed_interval ExpModel.exp winning_board NewComputation).
  - exact ExpModel_exp_nonneg.
  - simpl. lia.
Defined.

(** C6, the claim as stated fails: with the whole army against the bare
    king the stored value is exactly 1.0, which is not below 1.  By
    [winning_board_saturates] this does not depend on the exponential
    chosen, as long as its value at about -20 is at most [2^-26]. *)
Lemma value_reaches_one :
  AddInput ExpModel.exp winning_board NewComputation =
    Returns (push_back NewComputation (1.0)%f32) /\
  f32_lt (1.0)%f32 (1.0)%f32 = false.
Proof. split; vm_compute; reflexivity. Qed.

(** The same position seen from the other side stores exactly -1.0. *)
Lemma value_reaches_minus_one :
  AddInput ExpModel.exp
    (map (fun p => plane_of_mask (ReverseBytesInBytes (mask p)))
         (skipn 6 winning_board ++ firstn 6 winning_board))
    NewComputation =
    Returns (push_back NewComputation (-1.0)%f32) /\
  f32_lt (-1.0)%f32 (-1.0)%f32 = false.
Proof. split; vm_compute; reflexivity. Qed.

(** ** Further properties of the code *)

(** *** Dot products and raw scores are finite *)

Lemma f32_small_finite K x : f32_small K x -> f32_is_finite x = true.
Proof. destruct x; cbn; auto; contradiction. Qed.

Lemma piece_square_tables_small weights :
  In weights piece_square_tables -> table_small weights = true.
Proof.
  destruct tables_small as (Hp & Hn & Hb & Hr & Hq & Hk & Hke).
  unfold piece_square_tables. cbn [In].
  intros [<-|[<-|[<-|[<-|[<-|[<-|[<-|[]]]]]]]]; assumption.
Qed.

(** X1: on every mask and every piece-square table of the file,
    [DotProduct] returns a zero or a finite number: the accumulation never
    overflows and never produces a NaN. *)
Theorem DotProduct_finite plane weights :
  In weights piece_square_tables ->
  f32_is_finite (DotProduct plane weights) = true.
Proof.
  intros Hin. apply (f32_small_finite 63).
  apply DotProduct_small. now apply piece_square_tables_small.
Qed.

Lemma DotProduct_finite_witness :
  f32_is_finite (DotProduct (2 ^ 64 - 1) kQueens) = true.
Proof.
  apply DotProduct_finite. unfold piece_square_tables. cbn [In]. tauto.
Defined.

(** Multiplying by [-10.0f] adds at most four binary orders of magnitude. *)
Lemma f32_mul_minus_ten_small K x :
  -149 <= K <= 123 -> f32_small K x -> f32_small (K + 4) (x * -10.0)%f32.
Proof.
  intros HK Hx.
  destruct x as [sx|sx| |sx mx ex]; cbn [f32_small] in Hx; try contradiction.
  - exact I.
  - destruct Hx as [Hz|[Hex Hmx]]; [discriminate|].
    unfold f32_mul. cbn [SFmul]. std_Z.
    pose proof (binary_round_aux_below (K + 4) (xorb sx true)
                  (Zpos (mx * 10485760)) (ex + -20) loc_Exact) as H.
    assert (Hedge : upper_edge (K + 4) (Zpos (mx * 10485760)) (ex + -20) loc_Exact).
    { cbn [upper_edge]. right. split; [lia|].
      replace (K + 4 - (ex + -20)) with (K - ex + 24) by lia.
      rewrite pow2_split by lia. change (2 ^ 24) with 16777216.
      change (Zpos (mx * 10485760)) with (Zpos mx * 10485760).
      pose proof (pow2_pos (K - ex) ltac:(lia)). nia. }
    specialize (H ltac:(lia) ltac:(lia) ltac:(lia) Hedge).
    destruct (binary_round_aux prec32 emax32 (xorb sx true)
                (Zpos (mx * 10485760)) (ex + -20) loc_Exact);
      cbn [rounds_below f32_small] in *; tauto.
Qed.

(** X2: on every input of twelve planes or more, whatever the exponential,
    the raw score [q] and the argument [q * -10.0f] handed to [std::exp]
    are zeros or finite numbers, never an infinity or a NaN. *)
Theorem exp_argument_finite expf input self :
  (12 <= length input)%nat ->
  exists q,
    f32_is_finite q = true /\
    f32_is_finite (q * -10.0)%f32 = true /\
    AddInput expf input self =
    Returns (push_back self (2.0 / (1.0 + expf (q * -10.0)) - 1.0)%f32).
Proof.
  intros Hlen.
  destruct (position_value_squash expf (plane_mask input)) as (q & Hq & Hv).
  exists q. split; [now apply (f32_small_finite 75)|]. split.
  - apply (f32_small_finite (75 + 4)). apply f32_mul_minus_ten_small; [lia|exact Hq].
  - now rewrite AddInput_position_value, Hv.
Qed.

Lemma exp_argument_finite_witness :
  exists q,
    f32_is_finite q = true /\
    f32_is_finite (q * -10.0)%f32 = true /\
    AddInput ExpModel.exp queens_against NewComputation =
    Returns (push_back NewComputation
               (2.0 / (1.0 + ExpModel.exp (q * -10.0)) - 1.0)%f32).
Proof.
  apply (exp_argument_finite ExpModel.exp queens_against NewComputation).
  simpl. lia.
Defined.

(** *** Symmetric positions *)

Lemma f32_sub_self s m e :
  (S754_finite s m e - S754_finite s m e)%f32 = (0.0)%f32.
Proof.
  unfold f32_sub. cbn [SFsub]. std_Z. rewrite Z.min_id.
  pose proof (shl_align_spec m e e) as [_ Hstay]. cbv zeta in Hstay.
  destruct (Hstay ltac:(lia)) as [-> _].
  rewrite Z.sub_diag. reflexivity.
Qed.

(** Adding a number to a zero score and subtracting it again leaves [+0]. *)
Lemma add_sub_cancel K d :
  f32_small K d -> (0.0 + d - d)%f32 = (0.0)%f32.
Proof.
  destruct d as [s|s| |s m e]; cbn [f32_small]; try contradiction; intros _.
  - destruct s; reflexivity.
  - change (0.0 + S754_finite s m e)%f32 with (S754_finite s m e).
    apply f32_sub_self.
Qed.

(** X3: when each of the six opponent planes is the byte-reversed image of
    the plane of the side to move (as in the starting position), every
    pair of dot products cancels exactly and the stored value is exactly
    0.0, for every exponential with [exp (+-0) = 1]. *)
Theorem symmetric_position_value expf input self :
  (forall s, expf (S754_zero s) = (1.0)%f32) ->
  (12 <= length input)%nat ->
  (forall k, (k < 6)%nat ->
     ReverseBytesInBytes (plane_mask input (k + 6)) = plane_mask input k) ->
  AddInput expf input self = Returns (push_back self (0.0)%f32).
Proof.
  intros Hexp Hlen Hsym.
  destruct tables_small as (Hp & Hn & Hb & Hr & Hq & Hk & Hke).
  rewrite AddInput_position_value by assumption. do 2 f_equal.
  unfold position_value. cbv zeta.
  pose proof (Hsym 0%nat ltac:(lia)) as H0. pose proof (Hsym 1%nat ltac:(lia)) as H1.
  pose proof (Hsym 2%nat ltac:(lia)) as H2. pose proof (Hsym 3%nat ltac:(lia)) as H3.
  pose proof (Hsym 4%nat ltac:(lia)) as H4. pose proof (Hsym 5%nat ltac:(lia)) as H5.
  cbn [Nat.add] in H0, H1, H2, H3, H4, H5.
  rewrite H0, H1, H2, H3, H4, H5.
  rewrite (add_sub_cancel 63) by now apply DotProduct_small.
  rewrite (add_sub_cancel 63) by now apply DotProduct_small.
  rewrite (add_sub_cancel 63) by now apply DotProduct_small.
  rewrite (add_sub_cancel 63) by now apply DotProduct_small.
  rewrite (add_sub_cancel 63) by now apply DotProduct_small.
  rewrite (add_sub_cancel 63)
    by (apply DotProduct_small;
        match goal with |- table_small (if ?b then _ else _) = true =>
          destruct b end; assumption).
  change (0.0 * -10.0)%f32 with (S754_zero true).
  rewrite Hexp. reflexivity.
Qed.

Lemma symmetric_position_value_witness :
  AddInput ExpModel.exp starting_position NewComputation =
  Returns (push_back NewComputation (0.0)%f32).
Proof.
  apply (symmetric_position_value ExpModel.exp starting_position NewComputation).
  - exact ExpModel_exp_zero.
  - simpl. lia.
  - intros k Hk. do 6 (destruct k as [|k]; [reflexivity|]). lia.
Defined.

(** *** Saturation of the stored value *)

(** X4: on every input of twelve planes or more the stored value is exactly
    1.0 as soon as the exponential of [q * -10.0f] is a zero or a positive
    number of at most [2^-26], and exactly -1.0 when that exponential is
    [+infinity]. *)
Theorem value_saturates expf input self :
  (12 <= length input)%nat ->
  let e := expf (raw_score (selected_king_table (plane_mask input))
                           (plane_mask input) * -10.0)%f32 in
  (((exists s, e = S754_zero s) \/
    (exists m ex, e = S754_finite false m ex /\ below_pow2 (-26) (Zpos m) ex)) ->
   AddInput expf input self = Returns (push_back self (1.0)%f32)) /\
  (e = S754_infinity false ->
   AddInput expf input self = Returns (push_back self (-1.0)%f32)).
Proof.
  intros Hlen e.
  rewrite AddInput_position_value, position_value_raw_score by assumption.
  unfold squash. rewrite (f32_mul_comm (-10.0)%f32). fold e.
  split.
  - intros [[s ->]|(m & ex & -> & Hsmall)].
    + reflexivity.
    + now rewrite one_plus_tiny.
  - intros ->. reflexivity.
Qed.

Lemma value_saturates_witness :
  AddInput ExpModel.exp queens_against NewComputation =
  Returns (push_back NewComputation (-1.0)%f32).
Proof.
  destruct (value_saturates ExpModel.exp queens_against NewComputation)
    as [_ H]; [simpl; lia|].
  apply H. vm_compute. reflexivity.
Defined.

(** *** Bit counts and single squares *)

Lemma squares_spec sq : In sq squares <-> 0 <= sq < 64.
Proof.
  assert (Hsq : squares = map Z.of_nat (seq 0 64)) by reflexivity.
  rewrite Hsq, in_map_iff. split.
  - intros (n & <- & Hn). apply in_seq in Hn. lia.
  - intros Hr. exists (Z.to_nat sq). split; [lia|]. apply in_seq. lia.
Qed.

Lemma single_square_bits :
  forallb (fun sq => match IterateBits (2 ^ sq) with
                     | [x] => x =? sq
                     | _ => false
                     end) squares = true.
Proof. vm_compute. reflexivity. Qed.

(** X5: for a mask with the single bit [sq] set, [0 <= sq < 64],
    [IterateBits] yields exactly [sq] and [DotProduct] returns
    [0.0f + weights[sq]]: the weight of that square, with [-0.0f] turned
    into [+0.0f]. *)
Theorem DotProduct_single_square sq weights :
  0 <= sq < 64 ->
  IterateBits (2 ^ sq) = [sq] /\
  DotProduct (2 ^ sq) weights = (0.0 + nth (Z.to_nat sq) weights S754_nan)%f32 /\
  (nth (Z.to_nat sq) weights S754_nan <> S754_zero true ->
   DotProduct (2 ^ sq) weights = nth (Z.to_nat sq) weights S754_nan).
Proof.
  intros Hsq.
  assert (Hbits : IterateBits (2 ^ sq) = [sq]).
  { pose proof (proj1 (forallb_forall _ squares) single_square_bits sq
                  (proj2 (squares_spec sq) Hsq)) as H.
    cbv beta in H.
    destruct (IterateBits (2 ^ sq)) as [|x [|y l]]; try discriminate.
    apply Z.eqb_eq in H. now subst x. }
  split; [exact Hbits|].
  assert (Hdot : DotProduct (2 ^ sq) weights =
                 (0.0 + nth (Z.to_nat sq) weights S754_nan)%f32).
  { unfold DotProduct. rewrite Hbits. reflexivity. }
  split; [exact Hdot|].
  intros Hnz. rewrite Hdot.
  destruct (nth (Z.to_nat sq) weights S754_nan) as [[|]| | |]; try reflexivity.
  contradiction.
Qed.

Lemma DotProduct_single_square_witness :
  DotProduct (2 ^ 12) kPawns = nth 12 kPawns S754_nan.
Proof.
  destruct (DotProduct_single_square 12 kPawns) as (_ & _ & H); [lia|].
  apply H. discriminate.
Defined.

Lemma NumBits_length x : NumBits x = Z.of_nat (length (IterateBits x)).
Proof. reflexivity. Qed.

Lemma filter_length_or {A : Type} (p q : A -> bool) l :
  (length (filter p l) <= length (filter (fun x => p x || q x) l))%nat /\
  (length (filter (fun x => p x || q x) l) <=
   length (filter p l) + length (filter q l))%nat.
Proof.
  induction l as [|x l [IH1 IH2]]; [split; reflexivity|].
  cbn [filter]. destruct (p x), (q x); cbn [orb length]; lia.
Qed.

Lemma filter_nil_forall {A : Type} (p : A -> bool) l :
  filter p l = [] -> forall x, In x l -> p x = false.
Proof.
  intros Hnil x Hin. destruct (p x) eqn:E; [|reflexivity].
  assert (Hx : In x (filter p l)) by (apply filter_In; auto).
  rewrite Hnil in Hx. contradiction.
Qed.

(** X6: [NumBits] lies between 0 and 64, and on a 64-bit mask it is 0
    exactly when the mask is 0: the two emptiness tests of [AddInput],
    [mask == 0] and a zero bit count, agree. *)
Theorem NumBits_range_and_zero x :
  0 <= NumBits x <= 64 /\
  (is_uint64 x -> (NumBits x = 0 <-> x = 0)).
Proof.
  split.
  - rewrite NumBits_length. pose proof (IterateBits_length x). lia.
  - intros Hx. split.
    + intros Hz. rewrite NumBits_length in Hz.
      assert (Hnil : IterateBits x = [])
        by (apply length_zero_iff_nil; lia).
      rewrite IterateBits_filter in Hnil.
      apply Z.bits_inj'. intros n Hn. rewrite Z.bits_0.
      destruct (Z.lt_ge_cases n 64) as [Hlt|Hge].
      * apply (filter_nil_forall (Z.testbit x) squares Hnil n).
        apply squares_spec. lia.
      * now apply uint64_high_bits.
    + intros ->. reflexivity.
Qed.

Lemma NumBits_range_and_zero_witness :
  NumBits 0x8000000000000000 <> 0.
Proof.
  destruct (NumBits_range_and_zero 0x8000000000000000) as [_ H].
  intros Hz. apply H in Hz; [discriminate|unfold is_uint64; lia].
Defined.

(** X7: the bits of the union of two masks are at least the bits of either
    and at most the bits of both together; so the test
    [NumBits (knight | bishop) <= 1] of [AddInput] fails as soon as one of
    the two planes has two bits. *)
Theorem NumBits_lor_bounds a b :
  NumBits a <= NumBits (Z.lor a b) /\
  NumBits b <= NumBits (Z.lor a b) /\
  NumBits (Z.lor a b) <= NumBits a + NumBits b.
Proof.
  assert (Hlor : forall a b, IterateBits (Z.lor a b) =
            filter (fun sq => Z.testbit a sq || Z.testbit b sq) squares).
  { intros a' b'. rewrite IterateBits_filter. apply filter_ext.
    intros sq. apply Z.lor_spec. }
  rewrite !NumBits_length.
  pose proof (filter_length_or (Z.testbit a) (Z.testbit b) squares) as [H1 H2].
  pose proof (filter_length_or (Z.testbit b) (Z.testbit a) squares) as [H3 _].
  rewrite (Z.lor_comm a b) at 2.
  rewrite (Hlor a b), (Hlor b a), !IterateBits_filter. lia.
Qed.

(** *** The policy table *)

Lemma kLogPolicy_entries :
  forallb (fun v => f32_is_finite v && f32_le v (0.0)%f32
                    && valid_binary prec32 emax32 v) kLogPolicy = true.
Proof. vm_compute. reflexivity. Qed.

(** X8: for every move id in [0, 1858) the logit returned by [GetPVal] is
    a valid binary32 number, finite and not above 0: a log-probability,
    never a NaN or an infinity. *)
Theorem GetPVal_logit_not_positive self sample move_id :
  0 <= move_id < 1858 ->
  exists v, GetPVal self sample move_id = Returns v /\
            f32_is_finite v = true /\ f32_le v (0.0)%f32 = true /\
            valid_binary prec32 emax32 v = true.
Proof.
  intros Hid.
  exists (nth (Z.to_nat move_id) kLogPolicy S754_nan). split.
  - unfold GetPVal. rewrite size_t_of_int_nonneg by lia.
    apply subscript_in_range. rewrite kLogPolicy_size. lia.
  - pose proof (proj1 (forallb_forall _ kLogPolicy) kLogPolicy_entries
                  (nth (Z.to_nat move_id) kLogPolicy S754_nan)) as H.
    cbv beta in H.
    assert (Hin : In (nth (Z.to_nat move_id) kLogPolicy S754_nan) kLogPolicy)
      by (apply nth_In; rewrite kLogPolicy_size; lia).
    specialize (H Hin).
    apply andb_true_iff in H as [H Hvalid]. apply andb_true_iff in H as [Hfin Hle].
    auto.
Qed.

Lemma GetPVal_logit_not_positive_witness :
  exists v, GetPVal NewComputation 0 1855 = Returns v /\
            f32_is_finite v = true /\ f32_le v (0.0)%f32 = true /\
            valid_binary prec32 emax32 v = true.
Proof.
  apply (GetPVal_logit_not_positive NewComputation 0 1855). lia.
Defined.

(** *** Storing a value and reading it back *)



(** *** The endgame test when pieces leave the board *)

Lemma filter_length_le {A : Type} (p q : A -> bool) l :
  (forall x, p x = true -> q x = true) ->
  (length (filter p l) <= length (filter q l))%nat.
Proof.
  intros Hpq. induction l as [|x l IH]; [apply Nat.le_refl|].
  cbn [filter]. specialize (Hpq x).
  destruct (p x), (q x); cbn [length]; try lia.
  all: try (discriminate (Hpq eq_refl)).
Qed.

Lemma testbit_subset a a' sq :
  Z.land a' a = a' -> Z.testbit a' sq = true -> Z.testbit a sq = true.
Proof.
  intros Ha H. rewrite <- Ha, Z.land_spec in H.
  apply andb_true_iff in H. apply H.
Qed.

Lemma bits_across_subset a a' b b' :
  Z.land a' a = a' -> Z.land b' b = b' ->
  bits_across a' b' <= bits_across a b.
Proof.
  intros Ha Hb. unfold bits_across. apply inj_le. apply filter_length_le.
  intros sq H. apply orb_true_iff in H. apply orb_true_iff.
  destruct H as [H|H]; [left | right]; eapply testbit_subset; eassumption.
Qed.

Lemma side_qualifiesb_subset knight knight' bishop bishop' rook rook' queen queen' :
  Z.land knight' knight = knight' -> Z.land bishop' bishop = bishop' ->
  Z.land rook' rook = rook' -> Z.land queen' queen = queen' ->
  side_qualifiesb knight bishop rook queen = true ->
  side_qualifiesb knight' bishop' rook' queen' = true.
Proof.
  intros Hn Hb Hr Hq H. unfold side_qualifiesb in *.
  pose proof (bits_across_subset _ _ _ _ Hn Hb) as Hle.
  apply orb_true_iff in H. apply orb_true_iff. destruct H as [H|H].
  - left. apply Z.eqb_eq in H. subst queen. rewrite Z.land_0_r in Hq.
    subst queen'. reflexivity.
  - right. apply andb_true_iff in H as [H1 H2]. apply andb_true_iff.
    apply Z.eqb_eq in H1. apply Z.leb_le in H2. subst rook.
    rewrite Z.land_0_r in Hr. subst rook'.
    split; [reflexivity | apply Z.leb_le; lia].
Qed.

(** X11: the endgame test of [AddInput] is kept when pieces leave the
    board.  If every plane of [input'] is a subset of the same plane of
    [input] and [input] passes the test, then [input'] passes it too, and
    [AddInput] scores its kings with [kKingsEndgame]. *)
Theorem endgame_kept_when_pieces_leave expf input input' self :
  (12 <= length input')%nat ->
  (forall k, (k < 12)%nat ->
     Z.land (plane_mask input' k) (plane_mask input k) = plane_mask input' k) ->
  is_endgameb (plane_mask input) = true ->
  is_endgameb (plane_mask input') = true /\
  AddInput expf input' self =
    Returns (push_back self
               (squash expf (raw_score kKingsEndgame (plane_mask input')))).
Proof.
  intros Hlen Hsub Hend.
  assert (Hend' : is_endgameb (plane_mask input') = true).
  { unfold is_endgameb in *. apply andb_true_iff in Hend as [H1 H2].
    apply andb_true_iff. split.
    - apply (side_qualifiesb_subset _ _ _ _ _ _ _ _
               (Hsub 1%nat ltac:(lia)) (Hsub 2%nat ltac:(lia))
               (Hsub 3%nat ltac:(lia)) (Hsub 4%nat ltac:(lia)) H1).
    - apply (side_qualifiesb_subset _ _ _ _ _ _ _ _
               (Hsub 7%nat ltac:(lia)) (Hsub 8%nat ltac:(lia))
               (Hsub 9%nat ltac:(lia)) (Hsub 10%nat ltac:(lia)) H2). }
  split; [exact Hend'|].
  rewrite AddInput_position_value by assumption.
  rewrite position_value_raw_score. unfold selected_king_table.
  rewrite Hend'. reflexivity.
Qed.

(* A lone king is what is left of eight pawns, two knights and a king. *)
Lemma endgame_kept_when_pieces_leave_witness :
  is_endgameb (plane_mask (map plane_of_mask [0; 0; 0; 0; 0; 16; 0; 0; 0; 0; 0; 0])) = true /\
  AddInput ExpModel.exp (map plane_of_mask [0; 0; 0; 0; 0; 16; 0; 0; 0; 0; 0; 0])
    NewComputation =
    Returns (push_back NewComputation
               (squash ExpModel.exp
                  (raw_score kKingsEndgame
                     (plane_mask (map plane_of_mask [0; 0; 0; 0; 0; 16; 0; 0; 0; 0; 0; 0]))))).
Proof.
  apply (endgame_kept_when_pieces_leave ExpModel.exp
           (map plane_of_mask [0xFF00; 0x42; 0; 0; 0; 16; 0; 0; 0; 0; 0; 0])).
  - simpl. lia.
  - intros k Hk.
    do 12 (destruct k as [|k]; [vm_compute; reflexivity|]). lia.
  - vm_compute. reflexivity.
Defined.
